(** * video-analyzer: a shallow embedding of [tools/video-analyzer.py]

    The development follows the order of the Python module: text
    primitives ([str.lower], [in], [str.count], [str.strip], [re.split],
    [re.search]), URL parsing, transcript acquisition with its on-disk
    cache, content analysis, specification generation, the [analyze]
    pipeline and the command-line entry point.

    Conventions.
    - A Python [str] is a list of Unicode code points, [list N]: [len] is
      [length], [s[:n]] is [take n s], [+] is [++].  A literal of the
      source is written [lit "..."].
    - What Python takes from the Unicode character database
      ([str.lower], white space for [str.strip], the alphanumerics of
      [\w]) is a parameter, the class [Unicode]; it is only required to
      behave on ASCII as ASCII does.
    - A Python [dict] whose keys are literal names of the source is a
      [gmap string _]; [d.get(k, v)] is [default v (d !! k)].
    - [None] is [None]; a value that Python tests with [if x:] goes
      through [truthy].
    - Calls that leave the process (the caption API, the downloader, the
      speech-to-text model) are fields of an environment record [Env]; the
      [try]/[except] blocks of the source turn their failures into
      values, and the embedding does the same.
    - The progress lines written with [print] are not modelled.
    - The functions come twice.  First as they run when the steps that
      the source does not guard succeed (reading and writing the cache
      file, writing the analysis file, slicing the title); then, in
      [Module Faulty], with the exceptions of those steps. *)

From Stdlib Require Import ZArith NArith Ascii String List Lia Bool.
From stdpp Require Import gmap strings list fin_maps sorting.

Local Open Scope string_scope.
Local Open Scope list_scope.

(* ===================================================================== *)
(** ** Text *)
(* ===================================================================== *)

(** A Python [str]: its code points. *)
Abbreviation str := (list N).

(** A string literal of the source (all of them are ASCII, but for the
    pictographs of the status lines, which are given by number). *)
Definition lit (s : string) : str := N_of_ascii <$> list_ascii_of_string s.

(** [s.isascii()] *)
Definition is_ascii (s : str) : bool := forallb (fun c => c <? 128)%N s.

Definition between (lo hi c : N) : bool := (lo <=? c)%N && (c <=? hi)%N.

(** The ASCII part of the character database. *)
Definition ascii_lower (c : N) : N := if between 65 90 c then (c + 32)%N else c.

Definition ascii_isspace (c : N) : bool := between 9 13 c || between 28 32 c.

Definition ascii_isalnum (c : N) : bool :=
  between 48 57 c || between 65 90 c || between 97 122 c.

(** What the program takes from the Unicode character database of the
    interpreter: [s.lower()], [c.isspace()] (the characters [str.strip]
    removes) and [c.isalnum()] (with [_], the characters of [\w]).  On
    ASCII they are the ASCII ones; nothing else is assumed of them. *)
Class Unicode : Type :=
  { py_lower : str -> str;
    py_isspace : N -> bool;
    py_isalnum : N -> bool;
    py_lower_ascii : forall s, is_ascii s = true -> py_lower s = ascii_lower <$> s;
    py_isspace_ascii : forall c, (c < 128)%N -> py_isspace c = ascii_isspace c;
    py_isalnum_ascii : forall c, (c < 128)%N -> py_isalnum c = ascii_isalnum c }.

(** The smallest database: outside ASCII no character has a case, is
    white space or is alphanumeric.  It serves to run examples on ASCII
    text, where every database gives the same result. *)
Definition basic_latin : Unicode :=
  {| py_lower := fmap ascii_lower;
     py_isspace := ascii_isspace;
     py_isalnum := ascii_isalnum;
     py_lower_ascii := fun _ _ => eq_refl;
     py_isspace_ascii := fun _ _ => eq_refl;
     py_isalnum_ascii := fun _ _ => eq_refl |}.

Module Str.

(** [s.startswith(p)] *)
Fixpoint startswith (p s : str) : bool :=
  match p, s with
  | [], _ => true
  | _ :: _, [] => false
  | a :: p', b :: s' => if (a =? b)%N then startswith p' s' else false
  end.

(** [sub in s] *)
Fixpoint contains (sub s : str) : bool :=
  match s with
  | [] => startswith sub []
  | _ :: s' => startswith sub s || contains sub s'
  end.

(** [s.count(sub)]: occurrences are counted from the left and do not
    overlap.  [skip] is the number of characters still covered by the
    occurrence counted last. *)
Fixpoint count_from (sub s : str) (skip : nat) : nat :=
  match s with
  | [] => match sub with [] => 1 | _ => 0 end
  | _ :: s' =>
      match skip with
      | S k => count_from sub s' k
      | O => if startswith sub s
             then S (count_from sub s' (length sub - 1))
             else count_from sub s' 0
      end
  end.

Definition count (sub s : str) : nat := count_from sub s 0.

(** [re.split(r'[.!?]', s)]: one piece more than there are separators. *)
Definition is_terminator (c : N) : bool :=
  (c =? 46)%N || (c =? 33)%N || (c =? 63)%N.

Fixpoint split_sentences (s : str) : list str :=
  match s with
  | [] => [[]]
  | c :: s' =>
      if is_terminator c then [] :: split_sentences s'
      else match split_sentences s' with
           | piece :: rest => (c :: piece) :: rest
           | [] => [[c]]
           end
  end.

(** Python truth value of an [Optional[str]]. *)
Definition truthy (o : option str) : bool :=
  match o with
  | Some (_ :: _) => true
  | _ => false
  end.

(** [s] with the prefix [p] removed, when [s.startswith(p)]. *)
Fixpoint drop_prefix (p s : str) : option str :=
  match p, s with
  | [], _ => Some s
  | _ :: _, [] => None
  | a :: p', b :: s' => if (a =? b)%N then drop_prefix p' s' else None
  end.

Section Database.

Context {U : Unicode}.

(** [s.lower()] *)
Definition lower (s : str) : str := py_lower s.

(** The characters [str.strip] removes. *)
Definition is_space (c : N) : bool := py_isspace c.

(** The class [[\w-]] of the URL patterns: [\w] of a [str] pattern is
    every alphanumeric character and the underscore. *)
Definition is_word (c : N) : bool :=
  py_isalnum c || (c =? 95)%N || (c =? 45)%N.

(** [s.lstrip()], [s.rstrip()], [s.strip()] *)
Fixpoint lstrip (s : str) : str :=
  match s with
  | [] => []
  | c :: s' => if is_space c then lstrip s' else s
  end.

Fixpoint rstrip (s : str) : str :=
  match s with
  | [] => []
  | c :: s' =>
      match rstrip s' with
      | [] => if is_space c then [] else [c]
      | r => c :: r
      end
  end.

Definition strip (s : str) : str := rstrip (lstrip s).

(** Longest prefix made of [[\w-]] characters: what a greedy [[\w-]*]
    consumes. *)
Fixpoint span_word (s : str) : str :=
  match s with
  | c :: s' => if is_word c then c :: span_word s' else []
  | [] => []
  end.

(** A match of [(?:lit)([\w-]+)] anchored at the start of [s]; the value
    is group 1.  Nothing follows the group in the pattern, so the greedy
    match is the only one the engine reports. *)
Definition match_here (p s : str) : option str :=
  match drop_prefix p s with
  | Some rest =>
      match span_word rest with
      | [] => None
      | g => Some g
      end
  | None => None
  end.

(** [re.search(pattern, s)] for a pattern [(?:lit)([\w-]+)], followed by
    [.group(1)]: the leftmost start position wins. *)
Fixpoint re_search (p s : str) : option str :=
  match match_here p s with
  | Some g => Some g
  | None =>
      match s with
      | [] => None
      | _ :: s' => re_search p s'
      end
  end.

End Database.

End Str.

(* ===================================================================== *)
(** ** URL parsing *)
(* ===================================================================== *)

(** The five patterns of [extract_video_id], each given by the literal
    text its non-capturing group matches; the capturing group is
    [([\w-]+)] in all of them. *)
Definition patterns : list str :=
  lit <$> [ "youtube.com/watch?v=";
            "youtu.be/";
            "youtube.com/embed/";
            "youtube.com/v/";
            "youtube.com/shorts/" ].

Section UrlParsing.

Context {U : Unicode}.

(** The [for pattern in patterns] loop with its early [return]. *)
Fixpoint first_match (ps : list str) (url : str) : option str :=
  match ps with
  | [] => None
  | p :: ps' =>
      match Str.re_search p url with
      | Some g => Some g
      | None => first_match ps' url
      end
  end.

Definition extract_video_id (url : str) : option str :=
  first_match patterns url.

End UrlParsing.

(* ===================================================================== *)
(** ** Content analysis *)
(* ===================================================================== *)

(** [TRADING_KEYWORDS]: a dictionary literal; iteration follows the order
    of the source text. *)
Definition TRADING_KEYWORDS : list (string * list str) :=
  [ ("indicators", lit <$>
      [ "rsi"; "relative strength"; "macd"; "moving average"; "ema"; "sma"; "wma";
        "bollinger bands"; "bollinger"; "stochastic"; "volume"; "atr"; "average true range";
        "adx"; "ichimoku"; "fibonacci"; "fib"; "pivot points"; "support"; "resistance";
        "vwap"; "momentum"; "cci"; "commodity channel"; "williams"; "obv"; "on balance";
        "keltner"; "donchian"; "parabolic sar"; "supertrend"; "heikin ashi" ]);
    ("patterns", lit <$>
      [ "breakout"; "trend"; "reversal"; "divergence"; "convergence"; "bullish divergence";
        "bearish divergence"; "hidden divergence"; "cross"; "crossover"; "crossunder";
        "golden cross"; "death cross"; "squeeze"; "flag"; "pennant"; "triangle";
        "head and shoulders"; "double top"; "double bottom"; "cup and handle";
        "wedge"; "channel"; "range"; "consolidation"; "pullback"; "retracement" ]);
    ("strategies", lit <$>
      [ "scalping"; "day trading"; "swing trading"; "position trading";
        "mean reversion"; "trend following"; "momentum trading"; "breakout trading";
        "range trading"; "grid trading"; "martingale"; "dca"; "dollar cost averaging";
        "smart money"; "order block"; "fair value gap"; "fvg"; "liquidity" ]);
    ("conditions", lit <$>
      [ "entry"; "exit"; "stop loss"; "take profit"; "risk management";
        "position sizing"; "trailing stop"; "break even"; "signal"; "alert";
        "confirmation"; "filter"; "trigger"; "buy signal"; "sell signal";
        "long"; "short"; "close position"; "partial profit" ]);
    ("timeframes", lit <$>
      [ "1 minute"; "5 minute"; "15 minute"; "30 minute"; "1 hour"; "4 hour";
        "daily"; "weekly"; "monthly"; "multi timeframe"; "mtf"; "higher timeframe";
        "lower timeframe"; "htf"; "ltf"; "m1"; "m5"; "m15"; "m30"; "h1"; "h4"; "d1" ]) ].

(** The keyword list of a category, [TRADING_KEYWORDS[category]]. *)
Definition keywords_of (category : string) : list str :=
  default [] (snd <$> List.find (fun kv => String.eqb (fst kv) category) TRADING_KEYWORDS).

(** The entry [{'term': keyword, 'count': count}] appended for a keyword
    found in the text. *)
Record item : Type := Item { term : str; count : nat }.

(** The inner loop [for keyword in keywords] of [extract_key_concepts]:
    the value of [found_concepts[category]] before ranking. *)
Fixpoint found_items (text_lower : str) (keywords : list str) : list item :=
  match keywords with
  | [] => []
  | keyword :: rest =>
      if Str.contains keyword text_lower
      then Item keyword (Str.count keyword text_lower) :: found_items text_lower rest
      else found_items text_lower rest
  end.

(** [key=lambda x: -x['count']] *)
Definition sort_key (x : item) : Z := (- Z.of_nat (count x))%Z.

(** [sorted(items, key=...)].  Python's sort is stable and a stable sort
    has one possible result, so it is given here as the stable insertion
    sort: an element goes in front of the first one whose key is not
    smaller. *)
Fixpoint insert_sorted (x : item) (l : list item) : list item :=
  match l with
  | [] => [x]
  | y :: l' =>
      if (sort_key x <=? sort_key y)%Z then x :: l else y :: insert_sorted x l'
  end.

Definition sorted (l : list item) : list item := foldr insert_sorted [] l.

(** The loop that fills [unique], with its [seen] set. *)
Fixpoint unique_terms (seen : gset str) (l : list item) : list str :=
  match l with
  | [] => []
  | x :: l' =>
      if decide (term x ∈ seen) then unique_terms seen l'
      else term x :: unique_terms ({[term x]} ∪ seen) l'
  end.

(** [unique[:10]] for one category. *)
Definition top_terms (found : list item) : list str :=
  take 10 (unique_terms ∅ (sorted found)).

(** One element of [found_concepts['specific_values']]:
    [{'type': value_type, 'values': unique_values}]. *)
Record specific_value : Type :=
  SpecificValue { value_type : str; values : list str }.

(** The dictionary returned by [extract_key_concepts]: the five category
    keys hold lists of terms and live in [categories]; the key
    ['specific_values'], whose value has another type, is the field
    [specific_values]. *)
Record Concepts : Type :=
  MkConcepts { categories : gmap string (list str);
               specific_values : list specific_value }.

(** [concepts.get(key, [])] for a category key (the source reads
    ['indicators'], ['patterns'], ['strategies'] and ['timeframes'] this
    way; ['specific_values'] is read through the field of that name). *)
Definition get_terms (concepts : Concepts) (key : string) : list str :=
  default [] (categories concepts !! key).

Section ContentAnalysis.

Context {U : Unicode}.

(** The last loop of [extract_key_concepts] runs six [re.findall]
    patterns over the lowered text and keeps [list(set(matches))[:5]],
    whose order depends on the hash seed of the process; it is a
    parameter here, one for each run. *)
Variable find_specific_values : str -> list specific_value.

Definition extract_key_concepts (text : str) : Concepts :=
  let text_lower := Str.lower text in
  {| categories :=
       list_to_map
         (map (fun kv => (fst kv, top_terms (found_items text_lower (snd kv))))
              TRADING_KEYWORDS);
     specific_values := find_specific_values text_lower |}.

End ContentAnalysis.

Definition entry_keywords : list str :=
  lit <$> [ "enter"; "buy"; "long"; "entry"; "go long"; "open"; "get in" ].
Definition exit_keywords : list str :=
  lit <$> [ "exit"; "sell"; "close"; "take profit"; "stop loss"; "get out"; "short" ].
Definition risk_keywords : list str :=
  lit <$> [ "risk"; "position size"; "money management"; "drawdown"; "stop"; "loss" ].
Definition rule_keywords : list str :=
  lit <$> [ "always"; "never"; "must"; "important"; "rule"; "key" ].

(** [any(word in s for word in words)] *)
Definition any_in (words : list str) (s : str) : bool :=
  existsb (fun word => Str.contains word s) words.

(** The initial [components] dictionary. *)
Definition empty_components : gmap string (list str) :=
  list_to_map
    [ ("entry_conditions", []); ("exit_conditions", []); ("risk_management", []);
      ("indicators_mentioned", []); ("timeframes", []); ("market_conditions", []);
      ("key_rules", []) ].

(** [components[key].append(sentence)] *)
Definition append_to (key : string) (sentence : str)
    (components : gmap string (list str)) : gmap string (list str) :=
  alter (fun l => l ++ [sentence]) key components.

Definition when_then (b : bool) (f : gmap string (list str) -> gmap string (list str))
    (components : gmap string (list str)) : gmap string (list str) :=
  if b then f components else components.

Section StrategyComponents.

Context {U : Unicode}.

(** The body of [for sentence in sentences]. *)
Definition scan_sentence (components : gmap string (list str)) (raw : str)
    : gmap string (list str) :=
  let sentence := Str.strip raw in
  if (length sentence <? 10)%nat then components
  else
    let sentence_lower := Str.lower sentence in
    let c1 :=
      when_then (any_in entry_keywords sentence_lower
                 && (Str.contains (lit "when") sentence_lower
                     || Str.contains (lit "if") sentence_lower
                     || Str.contains (lit "once") sentence_lower))
                (append_to "entry_conditions" sentence) components in
    let c2 :=
      when_then (any_in exit_keywords sentence_lower
                 && (Str.contains (lit "when") sentence_lower
                     || Str.contains (lit "if") sentence_lower
                     || Str.contains (lit "at") sentence_lower))
                (append_to "exit_conditions" sentence) c1 in
    let c3 :=
      when_then (any_in risk_keywords sentence_lower)
                (append_to "risk_management" sentence) c2 in
    when_then (any_in rule_keywords sentence_lower)
              (append_to "key_rules" sentence) c3.

Definition identify_strategy_components (text : str) : gmap string (list str) :=
  let sentences := Str.split_sentences text in
  take 5 <$> fold_left scan_sentence sentences empty_components.

End StrategyComponents.

(** [components.get(key)] read as a list: a missing key gives [None],
    which is as false as the empty list, and [components.get(key, [])]. *)
Definition get_bucket (components : gmap string (list str)) (key : string)
    : list str :=
  default [] (components !! key).

(** Python truth value of a list. *)
Definition nonempty {A} (l : list A) : bool :=
  match l with [] => false | _ => true end.

(* ===================================================================== *)
(** ** Specification generation *)
(* ===================================================================== *)

(** [_calculate_complexity] *)
Definition _calculate_complexity (concepts : Concepts)
    (components : gmap string (list str)) : Z :=
  let score := 1%Z in
  let score := (score + Z.min (Z.of_nat (length (get_terms concepts "indicators"))) 3)%Z in
  let score := (score + Z.min (Z.of_nat (length (get_terms concepts "patterns"))) 2)%Z in
  let score := (score + if nonempty (get_bucket components "entry_conditions") then 1 else 0)%Z in
  let score := (score + if nonempty (get_bucket components "exit_conditions") then 1 else 0)%Z in
  let score := (score + if nonempty (get_bucket components "risk_management") then 1 else 0)%Z in
  let score := (score + if (1 <? length (get_terms concepts "timeframes"))%nat then 1 else 0)%Z in
  Z.min score 10.

(** The dictionary returned by [_assess_feasibility]. *)
Record Feasibility : Type :=
  MkFeasibility { overall : str;
                  issues : list str;
                  pine_script_compatible : bool }.

Definition problematic : list str :=
  lit <$> [ "machine learning"; "neural network"; "ai"; "sentiment"; "news" ].

(** [_suggest_features] *)
Definition _suggest_features (concepts : Concepts)
    (components : gmap string (list str)) (script_type : str) : list str :=
  let suggestions :=
    if bool_decide (script_type = lit "strategy")
    then (if nonempty (get_bucket components "risk_management") then []
          else [lit "Add position sizing and risk management"])
         ++ [lit "Include backtesting performance table";
             lit "Add alert conditions for signals"]
    else [lit "Add visual signal markers";
          lit "Include info panel with current values"] in
  let suggestions :=
    if nonempty (get_terms concepts "timeframes")
       && (1 <? length (get_terms concepts "timeframes"))%nat
    then suggestions ++ [lit "Implement multi-timeframe analysis"]
    else suggestions in
  take 5 (suggestions ++ [lit "Add input groups with tooltips";
                          lit "Include debug mode toggle"]).

(** A value of the metadata dictionary: a text, or [None] (the
    downloader gives [None] for a field it knows of and could not
    fill).  Numbers are carried as their decimal text. *)
Abbreviation value := (option str).

(** [d.get(key, fallback)] on a dictionary of such values: the fallback
    stands for a missing key only. *)
Definition meta_get (d : gmap string value) (key : string) (fallback : str) : value :=
  default (Some fallback) (d !! key).

(** [x or ''] *)
Definition or_empty (v : value) : str := default [] v.

(** [str(v)], as an f-string formats a value. *)
Definition format_value (v : value) : str := default (lit "None") v.

Record VideoInfo : Type :=
  MkVideoInfo { info_title : value;
                info_author : value;
                info_duration : value;
                info_url : value;
                info_transcript_source : str;
                info_analyzed_at : str }.

Record Implementation : Type :=
  MkImplementation { entry_logic : list str;
                     exit_logic : list str;
                     risk_rules : list str;
                     key_rules : list str }.

(** The dictionary returned by [generate_pine_script_spec]. *)
Record PineSpec : Type :=
  MkPineSpec { video_info : VideoInfo;
               script_type : str;
               complexity_score : Z;
               main_indicators : list str;
               spec_patterns : list str;
               strategy_style : str;
               spec_timeframes : list str;
               implementation : Implementation;
               parameters : list specific_value;
               feasibility : Feasibility;
               suggested_features : list str }.

Section SpecGeneration.

Context {U : Unicode}.

(** The [for term in ...] loop of [_assess_feasibility]. *)
Fixpoint problematic_issues (terms : list str) : list str :=
  match terms with
  | [] => []
  | term :: rest =>
      if existsb (fun p => Str.contains p (Str.lower term)) problematic
      then (lit "'" ++ term ++ lit "' may require external data or complex implementation")
             :: problematic_issues rest
      else problematic_issues rest
  end.

Definition _assess_feasibility (concepts : Concepts)
    (components : gmap string (list str)) : Feasibility :=
  let issues :=
    problematic_issues (get_terms concepts "strategies" ++ get_terms concepts "indicators") in
  let issues :=
    if (5 <? length (get_terms concepts "indicators"))%nat
    then issues ++ [lit "Many indicators - may need to optimize for performance"]
    else issues in
  {| overall := if nonempty issues then lit "partial" else lit "full";
     issues := issues;
     pine_script_compatible := (length issues =? 0)%nat |}.

(** [generate_pine_script_spec]; [now] is [datetime.now().isoformat()]. *)
Definition generate_pine_script_spec (now : str) (concepts : Concepts)
    (components : gmap string (list str)) (metadata : gmap string value)
    (transcript_source : str) : PineSpec :=
  let has_entry_exit :=
    nonempty (get_bucket components "entry_conditions")
    || nonempty (get_bucket components "exit_conditions") in
  let script_type := if has_entry_exit then lit "strategy" else lit "indicator" in
  let complexity := _calculate_complexity concepts components in
  {| video_info :=
       {| info_title := meta_get metadata "title" (lit "Unknown");
          info_author := meta_get metadata "author" (lit "Unknown");
          info_duration := meta_get metadata "duration_string" (lit "Unknown");
          info_url := meta_get metadata "url" [];
          info_transcript_source := transcript_source;
          info_analyzed_at := now |};
     script_type := script_type;
     complexity_score := complexity;
     main_indicators := take 5 (get_terms concepts "indicators");
     spec_patterns := take 5 (get_terms concepts "patterns");
     strategy_style :=
       match get_terms concepts "strategies" with
       | style :: _ => style
       | [] => lit "custom"
       end;
     spec_timeframes := take 3 (get_terms concepts "timeframes");
     implementation :=
       {| entry_logic := get_bucket components "entry_conditions";
          exit_logic := get_bucket components "exit_conditions";
          risk_rules := get_bucket components "risk_management";
          key_rules := get_bucket components "key_rules" |};
     parameters := specific_values concepts;
     feasibility := _assess_feasibility concepts components;
     suggested_features := _suggest_features concepts components script_type |}.

End SpecGeneration.

(* ===================================================================== *)
(** ** The outside world *)
(* ===================================================================== *)

(** Exceptions, by the class the handlers of the source tell apart, with
    their [str(e)]. *)
Inductive exn_class : Type :=
  | TranscriptsDisabled | NoTranscriptFound | VideoUnavailable | OtherException.

Record exn : Type := MkExn { class : exn_class; message : str }.

Inductive outcome (A : Type) : Type :=
  | Ok (a : A)
  | Raised (e : exn).
Arguments Ok {A} a.
Arguments Raised {A} e.

(** One caption track as the caption library presents it.  [fetch] is the
    answer of [transcript.fetch()], every entry reduced to its text. *)
Record Track : Type :=
  MkTrack { language_code : str;
            is_generated : bool;
            fetch : outcome (list str) }.

(** The object returned by [api.list(video_id)]: iterating it yields
    [tracks]; [find_transcript] is the library's own search. *)
Record TranscriptList : Type :=
  MkTranscriptList { tracks : list Track;
                     find_transcript : list str -> outcome Track }.

(** What the body of [get_transcript_from_whisper] can come to: a text,
    no audio file after the download, or an exception anywhere in it. *)
Inductive whisper_outcome : Type :=
  | Transcribed (text : str)
  | NoAudioFile
  | WhisperRaised (e : exn).

Record Env : Type :=
  MkEnv { api_list : str -> outcome TranscriptList;
          whisper_transcribe : str -> whisper_outcome;
          extract_info : str -> outcome (gmap string value);
          now : str }.

(** What the program does that can be observed from outside, in order. *)
Inductive event : Type :=
  | ListCaptions (video_id : str)          (* api.list: network *)
  | LookManual                             (* first loop over the list *)
  | LookAuto                               (* second loop over the list *)
  | FindEnglish                            (* find_transcript *)
  | FetchCaptions (source : str)           (* transcript.fetch: network *)
  | RunWhisper (url : str)                 (* download and transcribe: network *)
  | FetchMetadata (url : str)              (* extract_info: network *)
  | CacheRead (video_id : str)
  | CacheWrite (video_id : str)
  | SaveAnalysis (path : str).

(** One cache file, [{'text': ..., 'source': ...}]. *)
Record cache_entry : Type := MkCacheEntry { text : str; source : str }.

(** The files the program reads and writes, and the trace of events.
    [cache] is [CACHE_DIR], keyed by video identifier; [status] is the
    content of [STATUS_FILE] when it exists. *)
Record World : Type :=
  MkWorld { cache : gmap str cache_entry;
            status : option str;
            trace : list event }.

(** Computations over the world. *)
Definition M (A : Type) : Type := World -> A * World.

#[global] Instance M_ret : MRet M := fun A a w => (a, w).
#[global] Instance M_bind : MBind M :=
  fun A B k m w => let (a, w') := m w in k a w'.

Definition emit (e : event) : M unit :=
  fun w => (tt, {| cache := cache w; status := status w; trace := trace w ++ [e] |}).

(** [set_status] and [clear_status] swallow their own failures; the
    status file is taken to be writable. *)
Definition set_status (msg : str) : M unit :=
  fun w => (tt, {| cache := cache w; status := Some msg; trace := trace w |}).

Definition clear_status : M unit :=
  fun w => (tt, {| cache := cache w; status := None; trace := trace w |}).

Definition read_cache (video_id : str) : M (option cache_entry) :=
  fun w => (cache w !! video_id, w).

Definition write_cache (video_id : str) (entry : cache_entry) : M unit :=
  fun w => (tt, {| cache := <[video_id := entry]> (cache w);
                   status := status w;
                   trace := trace w ++ [CacheWrite video_id] |}).

(** The pictographs that open the status lines: U+1F3AC and U+2705. *)
Definition clapper : N := 127916.
Definition check_mark : N := 9989.

(** The status lines. *)
Definition status_starting : str := clapper :: lit " Video: Starting analysis...".
Definition status_metadata : str := clapper :: lit " Video: Fetching metadata...".
Definition status_captions : str := clapper :: lit " Video: Fetching captions...".
Definition status_audio : str := clapper :: lit " Video: Downloading audio...".
Definition status_whisper : str := clapper :: lit " Video: Transcribing with Whisper...".
Definition status_analyzing : str := clapper :: lit " Video: Analyzing trading concepts...".
Definition status_complete : str := check_mark :: lit " Video analysis complete!".

(* ===================================================================== *)
(** ** Transcript extraction *)
(* ===================================================================== *)

Definition english : list str := lit <$> [ "en"; "en-US"; "en-GB" ].

Definition is_english (t : Track) : bool :=
  bool_decide (language_code t ∈ english).

(** [' '.join(parts)] *)
Fixpoint join (sep : str) (parts : list str) : str :=
  match parts with
  | [] => []
  | [p] => p
  | p :: rest => p ++ sep ++ join sep rest
  end.

(** The tag each [except] clause of [get_transcript_from_youtube]
    returns. *)
Definition caption_error_tag (e : exn) : str :=
  match class e with
  | TranscriptsDisabled => lit "disabled"
  | NoTranscriptFound => lit "not_found"
  | VideoUnavailable => lit "unavailable"
  | OtherException => lit "error: " ++ message e
  end.

Section Transcripts.

(** The three [re.sub] passes and the final [strip] that clean the
    joined caption text. *)
Variable clean_up : str -> str.

Variable env : Env.

(** The choice of a caption track: manual English, then generated
    English, then whatever [find_transcript] gives. *)
Definition select_track (tl : TranscriptList) : M (option (Track * str)) :=
  emit LookManual ;;
  match List.find (fun t => is_english t && negb (is_generated t)) (tracks tl) with
  | Some t => mret (Some (t, lit "manual_captions"))
  | None =>
      emit LookAuto ;;
      match List.find (fun t => is_english t && is_generated t) (tracks tl) with
      | Some t => mret (Some (t, lit "auto_captions"))
      | None =>
          emit FindEnglish ;;
          match find_transcript tl english with
          | Ok t => mret (Some (t, lit "english_captions"))
          | Raised _ => mret None
          end
      end
  end.

Definition get_transcript_from_youtube (video_id : str)
    : M (option str * str) :=
  set_status status_captions ;;
  emit (ListCaptions video_id) ;;
  match api_list env video_id with
  | Raised e => mret (None, caption_error_tag e)
  | Ok transcript_list =>
      chosen ← select_track transcript_list;
      match chosen with
      | None => mret (None, lit "no_captions")
      | Some (transcript, source) =>
          emit (FetchCaptions source) ;;
          match fetch transcript with
          | Raised e => mret (None, caption_error_tag e)
          | Ok full_text_parts =>
              mret (Some (clean_up (join (lit " ") full_text_parts)), source)
          end
      end
  end.

Definition get_transcript_from_whisper (url : str)
    : M (option str * str) :=
  set_status status_audio ;;
  emit (RunWhisper url) ;;
  match whisper_transcribe env url with
  | Transcribed text => set_status status_whisper ;;
                        mret (Some text, lit "whisper")
  | NoAudioFile => mret (None, lit "download_failed")
  | WhisperRaised e => mret (None, lit "whisper_error: " ++ message e)
  end.

Variable use_whisper : bool.

(** The Whisper half of [get_transcript]. *)
Definition fall_back_to_whisper (url video_id : str)
    : M (option str * str) :=
  r ← get_transcript_from_whisper url;
  (if Str.truthy (fst r)
   then write_cache video_id {| text := default [] (fst r); source := snd r |}
   else mret tt) ;;
  mret r.

Definition get_transcript (url video_id : str) : M (option str * str) :=
  cached ← read_cache video_id;
  match cached with
  | Some entry =>
      emit (CacheRead video_id) ;;
      mret (Some (text entry), source entry ++ lit "_cached")
  | None =>
      if negb use_whisper
      then
        r ← get_transcript_from_youtube video_id;
        if Str.truthy (fst r)
        then
          write_cache video_id {| text := default [] (fst r); source := snd r |} ;;
          mret r
        else fall_back_to_whisper url video_id
      else fall_back_to_whisper url video_id
  end.

End Transcripts.

(* ===================================================================== *)
(** ** The analysis pipeline *)
(* ===================================================================== *)

(** The dictionary returned by [analyze]; a key that a return statement
    does not set is [None]. *)
Record AnalysisResult : Type :=
  MkAnalysisResult { success : bool;
                     error : option str;
                     metadata : option (gmap string value);
                     video_id : option str;
                     summary : option str;
                     spec : option PineSpec;
                     concepts : option Concepts;
                     components : option (gmap string (list str));
                     transcript_length : option nat;
                     transcript_preview : option str;
                     saved_to : option str }.

(** [{'success': False, 'error': msg}], with ['metadata'] when given. *)
Definition failure (msg : str) (metadata : option (gmap string value))
    : AnalysisResult :=
  {| success := false; error := Some msg; metadata := metadata;
     video_id := None; summary := None; spec := None; concepts := None;
     components := None; transcript_length := None;
     transcript_preview := None; saved_to := None |}.

(** The dictionary [get_video_metadata] builds from what the downloader
    returns. *)
Definition metadata_of (info : gmap string value) : gmap string value :=
  list_to_map
    [ ("title", meta_get info "title" (lit "Unknown"));
      ("author", meta_get info "uploader" (lit "Unknown"));
      ("channel_url", meta_get info "uploader_url" []);
      ("duration", meta_get info "duration" (lit "0"));
      ("duration_string", meta_get info "duration_string" (lit "Unknown"));
      ("description", Some (take 1000 (or_empty (meta_get info "description" []))));
      ("upload_date", meta_get info "upload_date" (lit "Unknown"));
      ("view_count", meta_get info "view_count" (lit "0"));
      ("like_count", meta_get info "like_count" (lit "0"));
      ("thumbnail", meta_get info "thumbnail" []) ].

(** The dictionary of its [except] clause. *)
Definition metadata_error (e : exn) : gmap string value :=
  list_to_map
    [ ("title", Some (lit "Unknown")); ("author", Some (lit "Unknown"));
      ("error", Some (message e)) ].

(** The path [save_analysis] writes to: the file name carries the
    identifier and the time. *)
Definition analysis_path (timestamp video_id : str) : str :=
  lit "projects/analysis/"
  ++ (lit "analysis_" ++ video_id ++ lit "_" ++ timestamp ++ lit ".json").

(** The dictionary [analyze] compiles before it saves it: every key but
    ['saved_to']. *)
Definition compiled {U : Unicode} (find_specific_values : str -> list specific_value)
    (create_summary : PineSpec -> str) (now : str)
    (video_id : str) (metadata : gmap string value)
    (transcript source : str) : AnalysisResult :=
  let concepts := extract_key_concepts find_specific_values transcript in
  let components := identify_strategy_components transcript in
  let spec := generate_pine_script_spec now concepts components metadata source in
  let summary := create_summary spec in
  {| success := true; error := None; metadata := None;
     video_id := Some video_id;
     summary := Some summary;
     spec := Some spec;
     concepts := Some concepts;
     components := Some components;
     transcript_length := Some (length transcript);
     transcript_preview :=
       Some (if (500 <? length transcript)%nat
             then take 500 transcript ++ lit "..."
             else transcript);
     saved_to := None |}.

(** [result['saved_to'] = filepath] *)
Definition with_saved_to (result : AnalysisResult) (filepath : str) : AnalysisResult :=
  {| success := success result; error := error result; metadata := metadata result;
     video_id := video_id result; summary := summary result; spec := spec result;
     concepts := concepts result; components := components result;
     transcript_length := transcript_length result;
     transcript_preview := transcript_preview result;
     saved_to := Some filepath |}.

Section Pipeline.

Context {U : Unicode}.

Variable find_specific_values : str -> list specific_value.
Variable clean_up : str -> str.

(** [create_summary]: the text template filled from the
    specification. *)
Variable create_summary : PineSpec -> str.

(** [strftime('%Y%m%d_%H%M%S')] of the time at which the analysis is
    saved. *)
Variable timestamp : str.

Variable env : Env.

Definition get_video_metadata (url : str) : M (gmap string value) :=
  set_status status_metadata ;;
  emit (FetchMetadata url) ;;
  match extract_info env url with
  | Ok info => mret (metadata_of info)
  | Raised e => mret (metadata_error e)
  end.

Definition save_analysis (video_id : str) : M str :=
  let filepath := analysis_path timestamp video_id in
  emit (SaveAnalysis filepath) ;;
  mret filepath.

Variable use_whisper : bool.

Definition analyze (url : str) : M AnalysisResult :=
  set_status status_starting ;;
  let video_id := extract_video_id url in
  if negb (Str.truthy video_id)
  then mret (failure (lit "Invalid YouTube URL") None)
  else
    let video_id := default [] video_id in
    metadata ← get_video_metadata url;
    let metadata := <["url" := Some url]> metadata in
    if bool_decide (is_Some (metadata !! "error"))
       && bool_decide (metadata !! "title" = Some (Some (lit "Unknown")))
    then mret (failure (lit "Could not access video: "
                          ++ format_value (default None (metadata !! "error"))) None)
    else
      r ← get_transcript clean_up env use_whisper url video_id;
      let transcript := fst r in
      let source := snd r in
      if negb (Str.truthy transcript)
      then mret (failure (lit "Could not get transcript (" ++ source
                            ++ lit "). Try with --whisper flag.")
                         (Some metadata))
      else
        let transcript := default [] transcript in
        set_status status_analyzing ;;
        let result :=
          compiled find_specific_values create_summary (now env)
                   video_id metadata transcript source in
        filepath ← save_analysis video_id;
        set_status status_complete ;;
        mret (with_saved_to result filepath).

End Pipeline.

(* ===================================================================== *)
(** ** Command line *)
(* ===================================================================== *)

(** The namespace built by [parser.parse_args()]. *)
Record Args : Type :=
  MkArgs { url : str; whisper : bool; model : str; json : bool }.

(** How [main] ends: by returning, or by [sys.exit(code)]. *)
Inductive completion : Type :=
  | Returned
  | SysExit (code : Z).

Section CommandLine.

Context {U : Unicode}.

Variable find_specific_values : str -> list specific_value.
Variable clean_up : str -> str.
Variable create_summary : PineSpec -> str.
Variable timestamp : str.
Variable env : Env.

Definition main (args : Args) : M (AnalysisResult * completion) :=
  result ← analyze find_specific_values clean_up create_summary timestamp env
                   (whisper args) (url args);
  if json args
  then clear_status ;; mret (result, Returned)
  else if success result
  then clear_status ;; mret (result, Returned)
  else clear_status ;; mret (result, SysExit 1).

End CommandLine.

(** The exit status of the process under the [if __name__ == "__main__"]
    block: a [main] that returns ends the interpreter with status 0, and
    the [SystemExit] of [sys.exit] is not an [Exception], so it passes
    the handlers with its own code. *)
Definition exit_status (c : completion) : Z :=
  match c with
  | Returned => 0
  | SysExit code => code
  end.

(** A world with no cache file and no status file. *)
Definition fresh_world : World :=
  {| cache := ∅; status := None; trace := [] |}.

(* ===================================================================== *)
(** ** The unguarded steps *)
(* ===================================================================== *)

(** Four steps of the pipeline sit outside every [try]: [json.load] on
    a cache file that exists, the two [open(..., 'w')] with their
    [json.dump], and [metadata['title'][:50]] in the line that shows the
    title.  Here they can raise, and the exception travels up to the
    [__main__] block. *)
Module Faulty.

(** Which file operations fail, and with what. *)
Record Faults : Type :=
  MkFaults { cache_load : str -> option exn;     (* reading the cache file of a video *)
             cache_dump : str -> option exn;     (* writing it *)
             analysis_dump : str -> option exn   (* writing the analysis file at a path *) }.

(** Nothing fails. *)
Definition none : Faults :=
  {| cache_load := fun _ => None; cache_dump := fun _ => None;
     analysis_dump := fun _ => None |}.

(** Computations that return or raise. *)
Definition F (A : Type) : Type := World -> outcome A * World.

Definition ret {A} (a : A) : F A := fun w => (Ok a, w).

Definition raise {A} (e : exn) : F A := fun w => (Raised e, w).

Definition bind {A B} (m : F A) (k : A -> F B) : F B :=
  fun w => match m w with
           | (Ok a, w') => k a w'
           | (Raised e, w') => (Raised e, w')
           end.

(** A step that cannot raise. *)
Definition lift {A} (m : M A) : F A :=
  fun w => let (a, w') := m w in (Ok a, w').

(** [None[:50]] *)
Definition not_subscriptable : exn :=
  MkExn OtherException (lit "'NoneType' object is not subscriptable").

Section Run.

Context {U : Unicode}.

Variable faults : Faults.
Variable find_specific_values : str -> list specific_value.
Variable clean_up : str -> str.
Variable create_summary : PineSpec -> str.
Variable timestamp : str.
Variable env : Env.

(** The [with open(cache_file, 'w')] blocks of [get_transcript]: an
    [open] that fails leaves no file. *)
Definition write_cache (video_id : str) (entry : cache_entry) : F unit :=
  match cache_dump faults video_id with
  | Some e => raise e
  | None => lift (write_cache video_id entry)
  end.

Definition fall_back_to_whisper (url video_id : str) : F (option str * str) :=
  bind (lift (get_transcript_from_whisper env url)) (fun r =>
  bind (if Str.truthy (fst r)
        then write_cache video_id {| text := default [] (fst r); source := snd r |}
        else ret tt) (fun _ =>
  ret r)).

Definition get_transcript (use_whisper : bool) (url video_id : str)
    : F (option str * str) :=
  bind (lift (read_cache video_id)) (fun cached =>
  match cached with
  | Some entry =>
      bind (lift (emit (CacheRead video_id))) (fun _ =>
      match cache_load faults video_id with
      | Some e => raise e
      | None => ret (Some (text entry), source entry ++ lit "_cached")
      end)
  | None =>
      if negb use_whisper
      then
        bind (lift (get_transcript_from_youtube clean_up env video_id)) (fun r =>
        if Str.truthy (fst r)
        then
          bind (write_cache video_id {| text := default [] (fst r); source := snd r |})
               (fun _ => ret r)
        else fall_back_to_whisper url video_id)
      else fall_back_to_whisper url video_id
  end).

Definition save_analysis (video_id : str) : F str :=
  let filepath := analysis_path timestamp video_id in
  match analysis_dump faults filepath with
  | Some e => raise e
  | None => lift (save_analysis timestamp video_id)
  end.

(** [metadata['title'][:50]]: the key is always there; its value is a
    text or [None]. *)
Definition show_title (metadata : gmap string value) : F unit :=
  match default None (metadata !! "title") with
  | Some _ => ret tt
  | None => raise not_subscriptable
  end.

Definition analyze (use_whisper : bool) (url : str) : F AnalysisResult :=
  bind (lift (set_status status_starting)) (fun _ =>
  let video_id := extract_video_id url in
  if negb (Str.truthy video_id)
  then ret (failure (lit "Invalid YouTube URL") None)
  else
    let video_id := default [] video_id in
    bind (lift (get_video_metadata env url)) (fun metadata =>
    let metadata := <["url" := Some url]> metadata in
    if bool_decide (is_Some (metadata !! "error"))
       && bool_decide (metadata !! "title" = Some (Some (lit "Unknown")))
    then ret (failure (lit "Could not access video: "
                         ++ format_value (default None (metadata !! "error"))) None)
    else
      bind (show_title metadata) (fun _ =>
      bind (get_transcript use_whisper url video_id) (fun r =>
      let transcript := fst r in
      let source := snd r in
      if negb (Str.truthy transcript)
      then ret (failure (lit "Could not get transcript (" ++ source
                           ++ lit "). Try with --whisper flag.")
                        (Some metadata))
      else
        let transcript := default [] transcript in
        bind (lift (set_status status_analyzing)) (fun _ =>
        let result :=
          compiled find_specific_values create_summary (now env)
                   video_id metadata transcript source in
        bind (save_analysis video_id) (fun filepath =>
        bind (lift (set_status status_complete)) (fun _ =>
        ret (with_saved_to result filepath)))))))).

Definition main (args : Args) : F (AnalysisResult * completion) :=
  bind (analyze (whisper args) (url args)) (fun result =>
  if json args
  then bind (lift clear_status) (fun _ => ret (result, Returned))
  else if success result
  then bind (lift clear_status) (fun _ => ret (result, Returned))
  else bind (lift clear_status) (fun _ => ret (result, SysExit 1))).

(** The [if __name__ == "__main__"] block: the exit status of the
    process and the world it leaves.  An exception out of [main] is
    caught by [except Exception], which clears the status and exits
    with 1. *)
Definition run (args : Args) (w : World) : Z * World :=
  match main args w with
  | (Ok (_, c), w') => (exit_status c, w')
  | (Raised _, w') => (1%Z, snd (clear_status w'))
  end.

End Run.

End Faulty.

(* ===================================================================== *)
(** ** Vocabulary of the statements *)
(* ===================================================================== *)

(** The events that reach the network. *)
Definition is_network (e : event) : bool :=
  match e with
  | ListCaptions _ | FetchCaptions _ | RunWhisper _ | FetchMetadata _ => true
  | _ => false
  end.

Definition network_calls (t : list event) : list event := List.filter is_network t.

(** The events a computation adds to the trace of the world it starts
    from. *)
Definition added_events (before after : World) : list event :=
  drop (length (trace before)) (trace after).

(** The four ways to a transcript. *)
Inductive method : Type :=
  | ManualCaptions | AutoCaptions | EnglishCaptions | SpeechToText.

#[global] Instance method_eq_dec : EqDecision method.
Proof. solve_decision. Defined.

Definition chain : list method :=
  [ ManualCaptions; AutoCaptions; EnglishCaptions; SpeechToText ].

(** The method an event is an attempt of, if any. *)
Definition method_of (e : event) : option method :=
  match e with
  | LookManual => Some ManualCaptions
  | LookAuto => Some AutoCaptions
  | FindEnglish => Some EnglishCaptions
  | RunWhisper _ => Some SpeechToText
  | _ => None
  end.

Definition methods_tried (t : list event) : list method := omap method_of t.

Definition manual_track (tl : TranscriptList) : option Track :=
  List.find (fun t => is_english t && negb (is_generated t)) (tracks tl).

Definition auto_track (tl : TranscriptList) : option Track :=
  List.find (fun t => is_english t && is_generated t) (tracks tl).

Section FallbackBySpec.

Variable clean_up : str -> str.
Variable env : Env.
Variables (url video_id : str).

(** Whether the captions of a track come out as a transcript. *)
Definition track_yields (t : option Track) : bool :=
  match t with
  | Some t =>
      match fetch t with
      | Ok parts => Str.truthy (Some (clean_up (join (lit " ") parts)))
      | Raised _ => false
      end
  | None => false
  end.

(** Whether a method, taken alone, yields a transcript for this
    video. *)
Definition yields (m : method) : bool :=
  match m with
  | SpeechToText =>
      match whisper_transcribe env url with
      | Transcribed text => Str.truthy (Some text)
      | _ => false
      end
  | _ =>
      match api_list env video_id with
      | Raised _ => false
      | Ok tl =>
          match m with
          | ManualCaptions => track_yields (manual_track tl)
          | AutoCaptions => track_yields (auto_track tl)
          | _ => match find_transcript tl english with
                 | Ok t => track_yields (Some t)
                 | Raised _ => false
                 end
          end
      end
  end.

(** The sentence of the specification, read as a procedure: go through
    the methods in order and stop at the first one that yields a
    transcript. *)
Fixpoint stop_at_first (ms : list method) : list method :=
  match ms with
  | [] => []
  | m :: rest => if yields m then [m] else m :: stop_at_first rest
  end.

Definition spec_fallback_chain : list method := stop_at_first chain.

End FallbackBySpec.

(** A URL has the shape of a pattern when the literal text of the pattern
    occurs in it followed by at least one [[\w-]] character. *)
Definition word_string {U : Unicode} (g : str) : Prop :=
  Forall (fun c => Str.is_word c = true) g.

Definition has_shape {U : Unicode} (p url : str) : Prop :=
  exists pre g post, url = pre ++ p ++ g ++ post /\ g <> [] /\ word_string g.

(** What every entry of every bucket satisfies, for a given property of
    sentences. *)
Definition buckets_hold (P : str -> Prop)
    (components : gmap string (list str)) : Prop :=
  forall key l, components !! key = Some l -> Forall P l.

(** The order [sorted] puts the entries in: larger counts first. *)
Definition by_count (x y : item) : Prop := count y <= count x.

(** The order of the terms in a ranked list, read off the text. *)
Definition by_occurrences (text_lower : str) (a b : str) : Prop :=
  Str.count b text_lower <= Str.count a text_lower.

(** The caption methods that [select_track] goes through for a list of
    tracks: it stops at the first track found. *)
Definition caption_methods (tl : TranscriptList) : list method :=
  match manual_track tl with
  | Some _ => [ManualCaptions]
  | None =>
      match auto_track tl with
      | Some _ => [ManualCaptions; AutoCaptions]
      | None => [ManualCaptions; AutoCaptions; EnglishCaptions]
      end
  end.

Definition is_fetch (e : event) : bool :=
  match e with FetchCaptions _ => true | _ => false end.

(** *** Sample environments *)

(** The search of the caption library, as far as the examples need it:
    the first track in one of the languages asked for. *)
Definition first_in_languages (ts : list Track) (codes : list str) : outcome Track :=
  match List.find (fun t => bool_decide (language_code t ∈ codes)) ts with
  | Some t => Ok t
  | None => Raised (MkExn NoTranscriptFound (lit "No transcripts were found"))
  end.

Definition sample_env (ts : outcome (list Track)) (speech : whisper_outcome) : Env :=
  {| api_list := fun _ =>
       match ts with
       | Ok ts => Ok {| tracks := ts; find_transcript := first_in_languages ts |}
       | Raised e => Raised e
       end;
     whisper_transcribe := fun _ => speech;
     extract_info := fun _ => Ok {[ "title" := Some (lit "Sample video") ]};
     now := lit "2024-01-01T00:00:00" |}.

Definition manual_en : Track :=
  MkTrack (lit "en") false
          (Ok [lit "Buy when the rsi is low."; lit "Sell when the rsi is high."]).

Definition auto_en : Track :=
  MkTrack (lit "en") true
          (Ok [lit "buy when the rsi is low"; lit "sell when the rsi is high"]).

Definition manual_en_broken : Track :=
  MkTrack (lit "en") false (Raised (MkExn OtherException (lit "no element found"))).

(** No captions and no audio. *)
Definition env_nothing : Env :=
  sample_env (Raised (MkExn TranscriptsDisabled (lit "Subtitles are disabled")))
             NoAudioFile.

(** Manual and generated captions, and a working speech-to-text. *)
Definition env_captions : Env :=
  sample_env (Ok [auto_en; manual_en]) (Transcribed (lit "buy when the rsi is low")).

(** Manual captions that cannot be fetched, generated ones that can. *)
Definition env_broken_manual : Env :=
  sample_env (Ok [manual_en_broken; auto_en]) NoAudioFile.

Definition sample_url : str := lit "https://www.youtube.com/watch?v=abc123XYZ_-".

(** The metadata dictionary of [analyze], once the key ['url'] is set,
    after a failed and after a successful call of [get_video_metadata]. *)
Definition failed_metadata (url : str) (e : exn) : gmap string value :=
  <["url" := Some url]> (metadata_error e).

Definition fetched_metadata (url : str) (info : gmap string value)
    : gmap string value :=
  <["url" := Some url]> (metadata_of info).

(** [a] occurs in [b] as a contiguous piece. *)
Definition occurs_in (a b : str) : Prop :=
  exists pre post, b = pre ++ a ++ post.

(** What may follow an identifier: nothing, or a character outside
    [[\w-]]. *)
Definition ends_word {U : Unicode} (post : str) : Prop :=
  match post with
  | [] => True
  | c :: _ => Str.is_word c = false
  end.

(** The text in front of the identifier in the five usual forms of a
    video URL. *)
Definition canonical_prefixes : list str :=
  lit <$> [ "https://www.youtube.com/watch?v=";
            "https://youtu.be/";
            "https://www.youtube.com/embed/";
            "https://www.youtube.com/v/";
            "https://www.youtube.com/shorts/" ].

(** The issue recorded for the one keyword of the tables that holds a
    problematic term: ["ai"] occurs in ["fair value gap"]. *)
Definition fair_value_gap_issue : str :=
  lit "'fair value gap' may require external data or complex implementation".

(** [len(sentence) < 10] fails. *)
Definition long_enough (sentence : str) : bool :=
  negb (length sentence <? 10)%nat.

(** The test under which the sentence loop appends a sentence to a
    bucket; the three buckets without a test are never appended to. *)
Definition selects {U : Unicode} (key : string) (sentence : str) : bool :=
  let sentence_lower := Str.lower sentence in
  if String.eqb key "entry_conditions" then
    any_in entry_keywords sentence_lower
    && (Str.contains (lit "when") sentence_lower
        || Str.contains (lit "if") sentence_lower
        || Str.contains (lit "once") sentence_lower)
  else if String.eqb key "exit_conditions" then
    any_in exit_keywords sentence_lower
    && (Str.contains (lit "when") sentence_lower
        || Str.contains (lit "if") sentence_lower
        || Str.contains (lit "at") sentence_lower)
  else if String.eqb key "risk_management" then any_in risk_keywords sentence_lower
  else if String.eqb key "key_rules" then any_in rule_keywords sentence_lower
  else false.

(** The keys of the [components] dictionary. *)
Definition component_keys : list string :=
  [ "entry_conditions"; "exit_conditions"; "risk_management";
    "indicators_mentioned"; "timeframes"; "market_conditions"; "key_rules" ].

(** [any(p in term.lower() for p in problematic)] *)
Definition is_problematic {U : Unicode} (t : str) : bool :=
  existsb (fun p => Str.contains p (Str.lower t)) problematic.

(** The events of the transcript step: the caption service, the
    speech-to-text and the cache. *)
Definition is_transcript_event (e : event) : bool :=
  match e with
  | FetchMetadata _ | SaveAnalysis _ => false
  | _ => true
  end.

Definition is_caption_call (e : event) : bool :=
  match e with
  | ListCaptions _ | FetchCaptions _ => true
  | _ => false
  end.

Definition is_save (e : event) : bool :=
  match e with SaveAnalysis _ => true | _ => false end.

(** The source tags under which a transcript is stored and reported. *)
Definition transcript_sources : list str :=
  lit <$> [ "manual_captions"; "auto_captions"; "english_captions"; "whisper" ].

(** *** The transcript step without the monad *)

(** The track that [select_track] settles on, and the events of the
    search. *)
Definition chosen_track (tl : TranscriptList) : option (Track * str) :=
  match manual_track tl with
  | Some t => Some (t, lit "manual_captions")
  | None =>
      match auto_track tl with
      | Some t => Some (t, lit "auto_captions")
      | None =>
          match find_transcript tl english with
          | Ok t => Some (t, lit "english_captions")
          | Raised _ => None
          end
      end
  end.

Definition selection_events (tl : TranscriptList) : list event :=
  match manual_track tl with
  | Some _ => [LookManual]
  | None =>
      match auto_track tl with
      | Some _ => [LookManual; LookAuto]
      | None => [LookManual; LookAuto; FindEnglish]
      end
  end.

(** What [get_transcript_from_youtube] returns and the events it adds. *)
Definition captions_answer (clean_up : str -> str) (env : Env)
    (video_id : str) : option str * str :=
  match api_list env video_id with
  | Raised e => (None, caption_error_tag e)
  | Ok tl =>
      match chosen_track tl with
      | None => (None, lit "no_captions")
      | Some (t, src) =>
          match fetch t with
          | Raised e => (None, caption_error_tag e)
          | Ok parts => (Some (clean_up (join (lit " ") parts)), src)
          end
      end
  end.

Definition captions_events (env : Env) (video_id : str) : list event :=
  ListCaptions video_id
  :: match api_list env video_id with
     | Raised _ => []
     | Ok tl =>
         selection_events tl
         ++ match chosen_track tl with
            | Some (_, src) => [FetchCaptions src]
            | None => []
            end
     end.

(** What [get_transcript_from_whisper] returns and the status it
    leaves. *)
Definition whisper_answer (env : Env) (url : str) : option str * str :=
  match whisper_transcribe env url with
  | Transcribed t => (Some t, lit "whisper")
  | NoAudioFile => (None, lit "download_failed")
  | WhisperRaised e => (None, lit "whisper_error: " ++ message e)
  end.

Definition whisper_status (env : Env) (url : str) : str :=
  match whisper_transcribe env url with
  | Transcribed _ => status_whisper
  | _ => status_audio
  end.

Definition entry_of (r : option str * str) : cache_entry :=
  {| text := default [] (fst r); source := snd r |}.

(** [get_transcript] as a case analysis. *)
Definition transcript_run (clean_up : str -> str) (env : Env)
    (use_whisper : bool) (url video_id : str) (w : World)
    : (option str * str) * World :=
  match cache w !! video_id with
  | Some entry =>
      ((Some (text entry), source entry ++ lit "_cached"),
       {| cache := cache w; status := status w;
          trace := trace w ++ [CacheRead video_id] |})
  | None =>
      let captions := captions_answer clean_up env video_id in
      if negb use_whisper && Str.truthy (fst captions)
      then (captions,
            {| cache := <[video_id := entry_of captions]> (cache w);
               status := Some status_captions;
               trace := trace w ++ captions_events env video_id
                          ++ [CacheWrite video_id] |})
      else
        let speech := whisper_answer env url in
        (speech,
         {| cache := if Str.truthy (fst speech)
                     then <[video_id := entry_of speech]> (cache w)
                     else cache w;
            status := Some (whisper_status env url);
            trace := trace w
                       ++ (if use_whisper then [] else captions_events env video_id)
                       ++ [RunWhisper url]
                       ++ (if Str.truthy (fst speech)
                           then [CacheWrite video_id] else []) |})
  end.

(** *** The pipeline without the monad *)

(** The dictionary of a successful analysis. *)
Definition report {U : Unicode} (find_specific_values : str -> list specific_value)
    (create_summary : PineSpec -> str) (timestamp now : str)
    (video_id : str) (metadata : gmap string value)
    (transcript source : str) : AnalysisResult :=
  with_saved_to
    (compiled find_specific_values create_summary now video_id metadata
              transcript source)
    (analysis_path timestamp video_id).

(** [analyze] as a case analysis. *)
Definition analyze_run {U : Unicode} (find_specific_values : str -> list specific_value)
    (clean_up : str -> str) (create_summary : PineSpec -> str)
    (timestamp : str) (env : Env) (use_whisper : bool) (url : str)
    (w : World) : AnalysisResult * World :=
  match extract_video_id url with
  | None =>
      (failure (lit "Invalid YouTube URL") None,
       {| cache := cache w; status := Some status_starting;
          trace := trace w |})
  | Some video_id =>
      let w0 := {| cache := cache w; status := Some status_metadata;
                   trace := trace w ++ [FetchMetadata url] |} in
      match extract_info env url with
      | Raised e => (failure (lit "Could not access video: " ++ message e) None, w0)
      | Ok info =>
          let out := transcript_run clean_up env use_whisper url video_id w0 in
          if Str.truthy (fst (fst out))
          then (report find_specific_values create_summary timestamp (now env)
                       video_id (fetched_metadata url info)
                       (default [] (fst (fst out))) (snd (fst out)),
                {| cache := cache (snd out);
                   status := Some status_complete;
                   trace := trace (snd out)
                              ++ [SaveAnalysis (analysis_path timestamp video_id)] |})
          else (failure (lit "Could not get transcript (" ++ snd (fst out)
                           ++ lit "). Try with --whisper flag.")
                        (Some (fetched_metadata url info)),
                snd out)
      end
  end.

(** *** The unguarded steps without the monad *)

(** The exception of the transcript step, if there is one: from reading
    the cache file that is there, or from writing the one of a
    transcript just obtained. *)
Definition transcript_fault (faults : Faulty.Faults) (clean_up : str -> str)
    (env : Env) (use_whisper : bool) (url video_id : str) (w : World) : option exn :=
  match cache w !! video_id with
  | Some _ => Faulty.cache_load faults video_id
  | None =>
      if Str.truthy (fst (fst (transcript_run clean_up env use_whisper url video_id w)))
      then Faulty.cache_dump faults video_id
      else None
  end.

(** The exception of [analyze], if there is one. *)
Definition analyze_fault {U : Unicode} (faults : Faulty.Faults)
    (clean_up : str -> str) (timestamp : str) (env : Env) (use_whisper : bool)
    (url : str) (w : World) : option exn :=
  match extract_video_id url with
  | None => None
  | Some video_id =>
      match extract_info env url with
      | Raised _ => None
      | Ok info =>
          match meta_get info "title" (lit "Unknown") with
          | None => Some Faulty.not_subscriptable
          | Some _ =>
              let w0 := {| cache := cache w; status := Some status_metadata;
                           trace := trace w ++ [FetchMetadata url] |} in
              match transcript_fault faults clean_up env use_whisper url video_id w0 with
              | Some e => Some e
              | None =>
                  if Str.truthy
                       (fst (fst (transcript_run clean_up env use_whisper url video_id w0)))
                  then Faulty.analysis_dump faults (analysis_path timestamp video_id)
                  else None
              end
          end
      end
  end.

(** A video for which the downloader knows no title. *)
Definition env_untitled : Env :=
  {| api_list := api_list env_captions;
     whisper_transcribe := whisper_transcribe env_captions;
     extract_info := fun _ => Ok {[ "title" := None ]};
     now := now env_captions |}.

(** A video with a description of 1200 characters. *)
Definition env_long_description : Env :=
  {| api_list := api_list env_captions;
     whisper_transcribe := whisper_transcribe env_captions;
     extract_info := fun _ =>
       Ok {[ "title" := Some (lit "Sample video");
             "description" := Some (replicate 1200 97%N) ]};
     now := now env_captions |}.

(** A cache file that is not JSON. *)
Definition json_decode_error : exn :=
  MkExn OtherException (lit "Expecting value: line 1 column 1 (char 0)").

Definition unreadable_cache : Faulty.Faults :=
  {| Faulty.cache_load := fun _ => Some json_decode_error;
     Faulty.cache_dump := fun _ => None;
     Faulty.analysis_dump := fun _ => None |}.

(** A world in which the sample video has a cache file. *)
Definition cached_world : World :=
  {| cache := {[ lit "abc123XYZ_-" := MkCacheEntry (lit "buy when the rsi is low")
                                                    (lit "whisper") ]};
     status := None; trace := [] |}.

(* ===================================================================== *)
(** * Properties *)
(* ===================================================================== *)

(** ** Complexity score *)

(** C6: for every concepts dictionary and every components dictionary the
    score computed by [_calculate_complexity] is an integer between 1 and
    10, both included. *)
Theorem complexity_in_range (concepts : Concepts)
    (components : gmap string (list str)) :
  (1 <= _calculate_complexity concepts components <= 10)%Z.
Proof.
  unfold _calculate_complexity.
  repeat match goal with
         | |- context [if ?b then _ else _] => destruct b
         end; lia.
Qed.

(** ** Feasibility *)

Lemma length_eqb_0_iff {A} (l : list A) : (length l =? 0)%nat = true <-> l = [].
Proof. destruct l; simpl; split; congruence. Qed.

(** C10: the feasibility assessment is consistent with its own list of
    issues: [overall] is ["full"] exactly when the list is empty, and
    [pine_script_compatible] is true exactly when the list is empty. *)
Theorem feasibility_consistent {U : Unicode} (concepts : Concepts)
    (components : gmap string (list str)) :
  let f := _assess_feasibility concepts components in
  (overall f = lit "full" <-> issues f = [])
  /\ (pine_script_compatible f = true <-> issues f = []).
Proof.
  unfold _assess_feasibility; cbn zeta.
  set (found := if (5 <? _)%nat then _ else _).
  cbn [overall issues pine_script_compatible].
  split.
  - destruct found; simpl; split; try congruence. intros H. vm_compute in H. discriminate.
  - apply length_eqb_0_iff.
Qed.

(** ** Strategy components *)

Section Buckets.

Variable P : str -> Prop.

Lemma empty_components_hold : buckets_hold P empty_components.
Proof.
  intros key l H. unfold empty_components in H. cbn in H.
  repeat (rewrite lookup_insert in H; case_decide;
          [injection H as <-; constructor |]).
  rewrite lookup_empty in H. discriminate.
Qed.

Lemma append_to_hold key sentence components :
  buckets_hold P components -> P sentence ->
  buckets_hold P (append_to key sentence components).
Proof.
  intros Hc Hs k l H. unfold append_to in H.
  rewrite lookup_alter in H. case_decide.
  - subst k. destruct (components !! key) as [old|] eqn:E; simpl in H; [|discriminate].
    injection H as <-. apply Forall_app. split; [by eapply Hc | by repeat constructor].
  - by eapply Hc.
Qed.

Lemma when_then_hold (b : bool) f components :
  buckets_hold P components ->
  (buckets_hold P components -> buckets_hold P (f components)) ->
  buckets_hold P (when_then b f components).
Proof. destruct b; simpl; auto. Qed.

End Buckets.

Lemma scan_sentence_hold {U : Unicode} (P : str -> Prop) components raw :
  buckets_hold P components ->
  (10 <= length (Str.strip raw) -> P (Str.strip raw)) ->
  buckets_hold P (scan_sentence components raw).
Proof.
  intros Hc Hraw. unfold scan_sentence.
  destruct (length (Str.strip raw) <? 10)%nat eqn:Hlen; [assumption|].
  apply Nat.ltb_ge in Hlen. specialize (Hraw Hlen).
  repeat (apply when_then_hold; [| intros ?; by apply append_to_hold]).
  assumption.
Qed.

Lemma scan_all_hold {U : Unicode} (P : str -> Prop) sentences components :
  buckets_hold P components ->
  (forall raw, raw ∈ sentences -> 10 <= length (Str.strip raw) -> P (Str.strip raw)) ->
  buckets_hold P (fold_left scan_sentence sentences components).
Proof.
  revert components.
  induction sentences as [|raw rest IH]; intros components Hc Hs; simpl; [assumption|].
  apply IH.
  - apply scan_sentence_hold; [assumption | apply Hs; left].
  - intros r Hr. apply Hs. by right.
Qed.

(** C9: every bucket that [identify_strategy_components] returns has at
    most 5 entries, and each entry is a sentence of the text (a piece
    between terminators), stripped as [str.strip] does, of at least 10
    characters (code points, as [len] counts them). *)
Theorem buckets_bounded {U : Unicode} (text : str) (key : string) (l : list str) :
  identify_strategy_components text !! key = Some l ->
  length l <= 5
  /\ Forall (fun e => e ∈ map Str.strip (Str.split_sentences text)
                      /\ 10 <= length e) l.
Proof.
  unfold identify_strategy_components. cbn zeta.
  rewrite lookup_fmap.
  destruct (fold_left _ _ _ !! key) as [full|] eqn:E; simpl; [|discriminate].
  intros [= <-]. split.
  - rewrite length_take. lia.
  - apply Forall_take.
    eapply (scan_all_hold _ _ _ (empty_components_hold _)); [|exact E].
    intros raw Hraw Hlen. split; [|assumption].
    apply list_elem_of_fmap. by exists raw.
Qed.

Lemma buckets_bounded_witness :
  length [lit "Buy when the rsi is low"] <= 5
  /\ Forall (fun e => e ∈ map (Str.strip (U:=basic_latin))
                        (Str.split_sentences (lit "Buy when the rsi is low. Too short!"))
                      /\ 10 <= length e)
            [lit "Buy when the rsi is low"].
Proof.
  apply (buckets_bounded (U:=basic_latin)
           (lit "Buy when the rsi is low. Too short!") "entry_conditions").
  vm_compute. reflexivity.
Defined.

(** ** URL parsing *)

Lemma drop_prefix_Some (p s rest : str) :
  Str.drop_prefix p s = Some rest <-> s = p ++ rest.
Proof.
  revert s. induction p as [|a p IH]; intros s; simpl.
  - split; [intros [= ->] | intros ->]; reflexivity.
  - destruct s as [|b s]; [split; discriminate|].
    destruct (N.eqb a b) eqn:E.
    + apply N.eqb_eq in E. subst b. rewrite IH.
      split; [intros -> | intros [= ->]]; reflexivity.
    + apply N.eqb_neq in E. split; [discriminate | intros [= <- _]; contradiction].
Qed.

Lemma span_word_decompose {U : Unicode} (s : str) :
  exists post, s = Str.span_word s ++ post /\ word_string (Str.span_word s).
Proof.
  induction s as [|c s [post [Hs Hw]]]; simpl.
  - exists []. split; [reflexivity | constructor].
  - destruct (Str.is_word c) eqn:E.
    + exists post. simpl. rewrite <- Hs. split; [reflexivity|].
      constructor; assumption.
    + exists (c :: s). split; [reflexivity | constructor].
Qed.

Lemma match_here_Some {U : Unicode} (p s g : str) :
  Str.match_here p s = Some g ->
  exists post, s = p ++ g ++ post /\ g <> [] /\ word_string g.
Proof.
  unfold Str.match_here.
  destruct (Str.drop_prefix p s) as [rest|] eqn:E; [|discriminate].
  apply drop_prefix_Some in E.
  destruct (span_word_decompose rest) as [post [Hrest Hw]].
  destruct (Str.span_word rest) as [|c w] eqn:Hspan; [discriminate|].
  intros [= <-]. exists post. rewrite <- Hrest. split; [assumption|].
  split; [discriminate | assumption].
Qed.

Lemma match_here_shape {U : Unicode} (p g post : str) :
  g <> [] -> word_string g -> is_Some (Str.match_here p (p ++ g ++ post)).
Proof.
  intros Hg Hw. unfold Str.match_here.
  rewrite (proj2 (drop_prefix_Some p _ (g ++ post)) eq_refl).
  destruct g as [|c g]; [contradiction|].
  inversion Hw as [|? ? Hc _]; subst.
  simpl. rewrite Hc. eauto.
Qed.

Lemma re_search_Some {U : Unicode} (p s g : str) :
  Str.re_search p s = Some g ->
  exists pre post, s = pre ++ p ++ g ++ post /\ g <> [] /\ word_string g.
Proof.
  induction s as [|c s IH]; simpl.
  - destruct (Str.match_here p []) eqn:E; [|discriminate].
    intros [= ->]. exists []. by apply match_here_Some.
  - destruct (Str.match_here p (c :: s)) eqn:E.
    + intros [= ->]. exists []. by apply match_here_Some.
    + intros H. destruct (IH H) as (pre & post & -> & Hg & Hw).
      exists (c :: pre), post. auto.
Qed.

Lemma re_search_shape {U : Unicode} (p s : str) :
  is_Some (Str.re_search p s) <-> has_shape p s.
Proof.
  split.
  - intros [g Hg]. destruct (re_search_Some _ _ _ Hg) as (pre & post & H).
    by exists pre, g, post.
  - intros (pre & g & post & -> & Hg & Hw).
    induction pre as [|c pre IH].
    + simpl.
      destruct (match_here_shape p g post Hg Hw) as [x Hx].
      destruct (p ++ g ++ post); simpl; rewrite Hx; eauto.
    + simpl.
      destruct (Str.match_here p _); eauto.
Qed.

Lemma re_search_None {U : Unicode} (p s : str) :
  Str.re_search p s = None <-> ~ has_shape p s.
Proof.
  rewrite <- re_search_shape.
  destruct (Str.re_search p s) as [g|].
  - split; [discriminate|]. intros H. exfalso. apply H. by exists g.
  - split; [|reflexivity]. intros _ [g Hg]. discriminate.
Qed.

Lemma first_match_first {U : Unicode} (ps : list str) (url : str) (i : nat) (p g : str) :
  ps !! i = Some p ->
  Str.re_search p url = Some g ->
  (forall j q, j < i -> ps !! j = Some q -> Str.re_search q url = None) ->
  first_match ps url = Some g.
Proof.
  revert i. induction ps as [|q ps IH]; intros i Hi Hp Hbefore; [by destruct i|].
  destruct i as [|i]; simpl in *.
  - injection Hi as ->. by rewrite Hp.
  - rewrite (Hbefore 0 q); [|lia|reflexivity].
    apply (IH i); [assumption..|].
    intros j r Hj Hr. apply (Hbefore (S j)); [lia | assumption].
Qed.

Lemma first_match_None {U : Unicode} (ps : list str) (url : str) :
  first_match ps url = None <-> (forall p, p ∈ ps -> Str.re_search p url = None).
Proof.
  induction ps as [|q ps IH]; simpl.
  - split; [intros _ p Hp; by apply elem_of_nil in Hp | reflexivity].
  - destruct (Str.re_search q url) eqn:E.
    + split; [discriminate|]. intros H. specialize (H q). rewrite E in H.
      apply H. left.
    + rewrite IH. split.
      * intros H p Hp. apply elem_of_cons in Hp as [-> | Hp]; auto.
      * intros H p Hp. apply H. by right.
Qed.

Lemma first_match_Some {U : Unicode} (ps : list str) (url g : str) :
  first_match ps url = Some g -> exists p, p ∈ ps /\ Str.re_search p url = Some g.
Proof.
  induction ps as [|q ps IH]; simpl; [discriminate|].
  destruct (Str.re_search q url) eqn:E.
  - intros [= ->]. exists q. split; [left | assumption].
  - intros H. destruct (IH H) as (p & Hp & Hg). exists p. split; [by right | assumption].
Qed.

(** C3, as the code has it: the patterns are tried in the order of the
    list, so the identifier returned is the one captured by the first
    pattern whose shape the URL has; a URL that has none of the five
    shapes gives [None], and only such a URL does; and an identifier
    that is returned is a non-empty run of [[\w-]] characters that
    follows the literal text of one of the patterns in the URL.  [\w] is
    the one of a [str] pattern: every alphanumeric character of the
    Unicode database and the underscore. *)
Theorem extract_video_id_first_shape {U : Unicode} (url : str) :
  (forall i p g,
      patterns !! i = Some p ->
      Str.re_search p url = Some g ->
      (forall j q, j < i -> patterns !! j = Some q -> ~ has_shape q url) ->
      extract_video_id url = Some g)
  /\ ((forall p, p ∈ patterns -> ~ has_shape p url) <-> extract_video_id url = None)
  /\ (forall g, extract_video_id url = Some g ->
        exists p pre post,
          p ∈ patterns /\ url = pre ++ p ++ g ++ post /\ g <> [] /\ word_string g).
Proof.
  unfold extract_video_id. split; [|split].
  - intros i p g Hi Hg Hbefore. apply (first_match_first _ _ i p); [assumption..|].
    intros j q Hj Hq. apply re_search_None. by apply (Hbefore j).
  - rewrite first_match_None. split; intros H p Hp; apply re_search_None; auto.
  - intros g Hg. destruct (first_match_Some _ _ _ Hg) as (p & Hp & Hs).
    destruct (re_search_Some _ _ _ Hs) as (pre & post & H).
    by exists p, pre, post.
Qed.

Lemma extract_video_id_first_shape_witness :
  extract_video_id (U:=basic_latin) (lit "https://youtu.be/ABC-12_x?si=1")
    = Some (lit "ABC-12_x")
  /\ extract_video_id (U:=basic_latin) (lit "https://vimeo.com/1234") = None.
Proof.
  split.
  - apply (proj1 (extract_video_id_first_shape (U:=basic_latin)
                    (lit "https://youtu.be/ABC-12_x?si=1"))
             1 (lit "youtu.be/") (lit "ABC-12_x")); [reflexivity | reflexivity |].
    intros j q Hj Hq. destruct j as [|j]; [|lia].
    injection Hq as <-. apply re_search_None. reflexivity.
  - apply (proj1 (proj2 (extract_video_id_first_shape (U:=basic_latin)
                           (lit "https://vimeo.com/1234")))).
    intros p Hp. apply re_search_None.
    repeat (apply elem_of_cons in Hp as [-> | Hp]; [reflexivity|]).
    by apply elem_of_nil in Hp.
Defined.

(** C3, as stated, fails on a URL that has two of the shapes: the embed
    pattern captures ["AAA"], and the identifier returned is the one of
    the [youtu.be/] pattern, which comes earlier in the list.  The URL is
    ASCII, so every character database gives this result. *)
Lemma extract_video_id_two_shapes :
  lit "youtube.com/embed/" ∈ patterns
  /\ Str.re_search (U:=basic_latin) (lit "youtube.com/embed/")
       (lit "https://www.youtube.com/embed/AAA?origin=https://youtu.be/BBB")
     = Some (lit "AAA")
  /\ extract_video_id (U:=basic_latin)
       (lit "https://www.youtube.com/embed/AAA?origin=https://youtu.be/BBB")
     = Some (lit "BBB")
  /\ extract_video_id (U:=basic_latin)
       (lit "https://www.youtube.com/embed/AAA?origin=https://youtu.be/BBB")
     <> Some (lit "AAA").
Proof.
  split; [|split; [|split]].
  - unfold patterns. rewrite !fmap_cons. do 2 right. left.
  - reflexivity.
  - reflexivity.
  - discriminate.
Qed.

(** ** Key concepts *)

Lemma contains_count (sub s : str) :
  Str.contains sub s = true <-> 1 <= Str.count sub s.
Proof.
  unfold Str.count. induction s as [|c s IH]; simpl.
  - destruct sub; simpl; split; (lia || congruence).
  - destruct (Str.startswith sub (c :: s)); simpl; [split; (lia || reflexivity)|].
    exact IH.
Qed.

Lemma elem_of_found_items (text_lower : str) (keywords : list str) (x : item) :
  x ∈ found_items text_lower keywords <->
  term x ∈ keywords
  /\ Str.contains (term x) text_lower = true
  /\ count x = Str.count (term x) text_lower.
Proof.
  induction keywords as [|k rest IH]; simpl.
  - split; [intros H; by apply elem_of_nil in H | intros [H _]; by apply elem_of_nil in H].
  - destruct (Str.contains k text_lower) eqn:E.
    + rewrite !elem_of_cons, IH. split.
      * intros [-> | (? & ? & ?)]; simpl; auto.
      * intros ([Hk | Hk] & Hc & Hn); [left | right; auto].
        destruct x as [t n]; simpl in *. by subst.
    + rewrite elem_of_cons, IH. split.
      * intros (? & ? & ?); auto.
      * intros ([Hk | Hk] & Hc & Hn); [congruence | auto].
Qed.

Lemma found_items_length (text_lower : str) (keywords : list str) :
  length (found_items text_lower keywords) <= length keywords.
Proof.
  induction keywords as [|k rest IH]; simpl; [lia|].
  destruct (Str.contains k text_lower); simpl; lia.
Qed.

Section Ranking.

Lemma insert_sorted_perm (x : item) (l : list item) : insert_sorted x l ≡ₚ x :: l.
Proof.
  induction l as [|y l IH]; simpl; [reflexivity|].
  destruct (sort_key x <=? sort_key y)%Z; [reflexivity|].
  rewrite IH. apply Permutation_swap.
Qed.

Lemma sorted_perm (l : list item) : sorted l ≡ₚ l.
Proof.
  induction l as [|x l IH]; simpl; [reflexivity|].
  rewrite insert_sorted_perm. by rewrite IH.
Qed.

Lemma insert_sorted_sorted (x : item) (l : list item) :
  StronglySorted by_count l -> StronglySorted by_count (insert_sorted x l).
Proof.
  induction 1 as [|y l Hl IH Hy]; simpl; [repeat constructor|].
  unfold sort_key at 1 2.
  destruct (Z.leb_spec (- Z.of_nat (count x)) (- Z.of_nat (count y))) as [Hle|Hgt].
  - constructor; [by constructor|].
    constructor; [unfold by_count; lia|].
    eapply Forall_impl; [exact Hy|]. unfold by_count. intros z Hz. lia.
  - constructor; [assumption|].
    rewrite insert_sorted_perm. constructor; [unfold by_count; lia | assumption].
Qed.

Lemma sorted_sorted (l : list item) : StronglySorted by_count (sorted l).
Proof.
  induction l as [|x l IH]; simpl; [constructor|].
  by apply insert_sorted_sorted.
Qed.

Lemma unique_terms_sublist (seen : gset str) (l : list item) :
  unique_terms seen l `sublist_of` (term <$> l).
Proof.
  revert seen. induction l as [|x l IH]; intros seen; simpl; [constructor|].
  destruct (decide (term x ∈ seen)).
  - apply sublist_cons, IH.
  - apply sublist_skip, IH.
Qed.

Lemma unique_terms_fresh (seen : gset str) (l : list item) (t : str) :
  t ∈ unique_terms seen l -> t ∉ seen.
Proof.
  revert seen. induction l as [|x l IH]; intros seen; simpl.
  - intros H. by apply elem_of_nil in H.
  - destruct (decide (term x ∈ seen)); [apply IH|].
    intros Ht. apply elem_of_cons in Ht as [-> | Ht]; [assumption|].
    apply IH in Ht. set_solver.
Qed.

Lemma unique_terms_NoDup (seen : gset str) (l : list item) :
  NoDup (unique_terms seen l).
Proof.
  revert seen. induction l as [|x l IH]; intros seen; simpl; [constructor|].
  destruct (decide (term x ∈ seen)); [apply IH|].
  constructor; [|apply IH].
  intros H%unique_terms_fresh. set_solver.
Qed.

Lemma unique_terms_elem (seen : gset str) (l : list item) (t : str) :
  t ∈ term <$> l -> t ∉ seen -> t ∈ unique_terms seen l.
Proof.
  revert seen. induction l as [|x l IH]; intros seen; simpl.
  - intros H. by apply elem_of_nil in H.
  - intros Ht Hseen. destruct (decide (term x ∈ seen)) as [Hx|Hx].
    + apply IH; [|assumption].
      apply elem_of_cons in Ht as [-> | Ht]; [contradiction | assumption].
    + destruct (decide (t = term x)) as [-> | Hne]; [left|].
      right. apply IH.
      2:{ apply not_elem_of_union. split; [by apply not_elem_of_singleton | assumption]. }
      apply elem_of_cons in Ht as [-> | Ht]; [contradiction | assumption].
Qed.

Lemma StronglySorted_sublist {A} (R : A -> A -> Prop) (l1 l2 : list A) :
  l1 `sublist_of` l2 -> StronglySorted R l2 -> StronglySorted R l1.
Proof.
  induction 1 as [|x l1 l2 Hsub IH|x l1 l2 Hsub IH]; intros Hs.
  - constructor.
  - inversion Hs as [|? ? Hl2 Hx]; subst. constructor; [by apply IH|].
    apply Forall_forall. intros y Hy.
    rewrite Forall_forall in Hx. apply Hx. by eapply elem_of_sublist.
  - inversion Hs; subst. by apply IH.
Qed.

Lemma terms_sorted (text_lower : str) (l : list item) :
  Forall (fun x => count x = Str.count (term x) text_lower) l ->
  StronglySorted by_count l ->
  StronglySorted (by_occurrences text_lower) (term <$> l).
Proof.
  intros Hc Hs. induction Hs as [|x l Hl IH Hx]; simpl; [constructor|].
  inversion Hc as [|? ? Hcx Hcl]; subst.
  constructor; [by apply IH|].
  apply Forall_fmap, Forall_forall. intros y Hy. simpl.
  rewrite Forall_forall in Hx, Hcl. unfold by_occurrences.
  rewrite <- Hcx, <- (Hcl y Hy). by apply Hx.
Qed.

End Ranking.

Lemma TRADING_KEYWORDS_keys_NoDup : NoDup (TRADING_KEYWORDS.*1).
Proof.
  apply (bool_decide_unpack _). vm_compute. reflexivity.
Qed.

(** The value stored under a category of [TRADING_KEYWORDS] in the
    dictionary that [extract_key_concepts] returns. *)
Lemma extract_key_concepts_category {U : Unicode}
    (find_specific_values : str -> list specific_value)
    (text : str) (category : string) (keywords : list str) :
  (category, keywords) ∈ TRADING_KEYWORDS ->
  get_terms (extract_key_concepts find_specific_values text) category
  = top_terms (found_items (Str.lower text) keywords).
Proof.
  intros Hin. unfold get_terms, extract_key_concepts. cbn [categories].
  erewrite elem_of_list_to_map_1; [reflexivity | |].
  - rewrite <- list_fmap_compose. exact TRADING_KEYWORDS_keys_NoDup.
  - apply list_elem_of_fmap. by exists (category, keywords).
Qed.

(** What the cut [l[:n]] of a ranked list leaves out comes after all it
    keeps. *)
Lemma take_keeps_best {A} (R : A -> A -> Prop) (n : nat) (l : list A) (x : A) :
  StronglySorted R l -> x ∈ l -> x ∉ take n l ->
  length (take n l) = n /\ forall y, y ∈ take n l -> R y x.
Proof.
  intros Hs Hx Hnot.
  rewrite <- (take_drop n l) in Hx, Hs.
  apply elem_of_app in Hx as [Hx | Hx]; [contradiction|].
  split.
  - rewrite length_take. apply Nat.min_l.
    destruct (decide (n <= length l)) as [|Hlt]; [assumption|].
    rewrite drop_ge in Hx by lia. by apply elem_of_nil in Hx.
  - intros y Hy. by eapply StronglySorted_app_1_elem_of.
Qed.

(** C2, as the code has it.  A keyword of a category that occurs [N >= 1]
    times in the lowered text is recorded with count [N] in the list of
    found entries; counts serve the ranking only and the list returned
    for the category holds bare terms; it holds the keyword whenever at
    most ten keywords of the category occur in the text; a keyword that
    occurs and is not listed was dropped by the cut to ten entries: the
    list is full and each of its terms occurs at least as often as the
    one dropped; the list never holds a term twice, has at most 10
    entries, is ranked by descending number of occurrences, and holds
    only keywords of the category that occur in the text. *)
Theorem extract_key_concepts_ranked {U : Unicode}
    (find_specific_values : str -> list specific_value)
    (text : str) (category : string) (keywords : list str) (keyword : str) (n : nat) :
  (category, keywords) ∈ TRADING_KEYWORDS ->
  keyword ∈ keywords ->
  Str.count keyword (Str.lower text) = n ->
  1 <= n ->
  let found := found_items (Str.lower text) keywords in
  let listed := get_terms (extract_key_concepts find_specific_values text) category in
  Item keyword n ∈ found
  /\ (length found <= 10 -> keyword ∈ listed)
  /\ (keyword ∉ listed ->
      length listed = 10
      /\ forall t, t ∈ listed -> n <= Str.count t (Str.lower text))
  /\ NoDup listed
  /\ length listed <= 10
  /\ StronglySorted (by_occurrences (Str.lower text)) listed
  /\ (forall t, t ∈ listed -> t ∈ keywords /\ 1 <= Str.count t (Str.lower text)).
Proof.
  intros Hcat Hkw HN Hpos found listed. subst listed.
  rewrite (extract_key_concepts_category _ _ _ _ Hcat). fold found.
  assert (Hfound : Item keyword n ∈ found).
  { apply elem_of_found_items; simpl. split; [assumption|].
    split; [|by rewrite HN]. apply contains_count. lia. }
  assert (Hsub : unique_terms ∅ (sorted found) `sublist_of` (term <$> sorted found))
    by apply unique_terms_sublist.
  assert (Helem : forall t, t ∈ term <$> sorted found ->
                            t ∈ keywords /\ 1 <= Str.count t (Str.lower text)).
  { intros t (x & -> & Hx)%list_elem_of_fmap.
    rewrite sorted_perm in Hx. apply elem_of_found_items in Hx as (? & ? & ?).
    split; [assumption | by apply contains_count]. }
  assert (Hin : keyword ∈ unique_terms ∅ (sorted found)).
  { apply unique_terms_elem; [|set_solver].
    apply list_elem_of_fmap. exists (Item keyword n). split; [reflexivity|].
    by rewrite sorted_perm. }
  assert (Hranked : StronglySorted (by_occurrences (Str.lower text))
                      (unique_terms ∅ (sorted found))).
  { eapply StronglySorted_sublist; [exact Hsub|].
    apply terms_sorted; [|apply sorted_sorted].
    apply Forall_forall. intros x Hx. rewrite sorted_perm in Hx.
    by apply elem_of_found_items in Hx as (_ & _ & ?). }
  unfold top_terms. split; [assumption|]. split; [|split; [|split; [|split; [|split]]]].
  - intros Hlen. rewrite take_ge; [assumption|].
    apply sublist_length in Hsub. rewrite length_fmap in Hsub.
    rewrite (Permutation_length (sorted_perm found)) in Hsub. lia.
  - intros Hnot.
    destruct (take_keeps_best _ 10 _ keyword Hranked Hin Hnot) as [Hlen Hbest].
    split; [assumption|].
    intros t Ht. specialize (Hbest t Ht). unfold by_occurrences in Hbest. lia.
  - eapply sublist_NoDup; [apply unique_terms_NoDup | apply sublist_take].
  - rewrite length_take. lia.
  - eapply StronglySorted_sublist; [apply sublist_take | exact Hranked].
  - intros t Ht. apply Helem. eapply elem_of_sublist; [|exact Hsub].
    eapply elem_of_sublist; [eassumption | apply sublist_take].
Qed.

Lemma extract_key_concepts_ranked_witness :
  Item (lit "rsi") 2
    ∈ found_items (Str.lower (U:=basic_latin) (lit "RSI and MACD, then rsi again"))
        (keywords_of "indicators")
  /\ lit "rsi" ∈ get_terms (extract_key_concepts (U:=basic_latin) (fun _ => [])
                              (lit "RSI and MACD, then rsi again")) "indicators".
Proof.
  destruct (extract_key_concepts_ranked (U:=basic_latin) (fun _ => [])
              (lit "RSI and MACD, then rsi again") "indicators"
              (keywords_of "indicators") (lit "rsi") 2) as (Hfound & Hlisted & _).
  - unfold TRADING_KEYWORDS. left.
  - vm_compute. left.
  - reflexivity.
  - lia.
  - split; [exact Hfound|]. apply Hlisted. vm_compute. lia.
Defined.

(** C2, as stated, fails when more than ten keywords of one category
    occur in the text: ["ichimoku"] occurs once in this text and is a
    keyword of the category ["indicators"], and the list returned for
    the category, cut to its first 10 entries, does not hold it.  The
    text is ASCII, so every character database gives this result. *)
Lemma extract_key_concepts_eleventh_keyword :
  let text :=
    lit "RSI MACD EMA SMA WMA Bollinger Stochastic Volume ATR ADX Ichimoku" in
  lit "ichimoku" ∈ keywords_of "indicators"
  /\ Str.count (lit "ichimoku") (Str.lower (U:=basic_latin) text) = 1
  /\ get_terms (extract_key_concepts (U:=basic_latin) (fun _ => []) text) "indicators"
     = lit <$> [ "rsi"; "macd"; "ema"; "sma"; "wma"; "bollinger"; "stochastic";
                 "volume"; "atr"; "adx" ]
  /\ lit "ichimoku"
       ∉ get_terms (extract_key_concepts (U:=basic_latin) (fun _ => []) text)
           "indicators".
Proof.
  cbn zeta.
  assert (H : get_terms (extract_key_concepts (U:=basic_latin) (fun _ => [])
                (lit "RSI MACD EMA SMA WMA Bollinger Stochastic Volume ATR ADX Ichimoku"))
                "indicators"
              = lit <$> [ "rsi"; "macd"; "ema"; "sma"; "wma"; "bollinger"; "stochastic";
                          "volume"; "atr"; "adx" ]) by (vm_compute; reflexivity).
  split; [|split; [|split]].
  - apply (bool_decide_unpack _). vm_compute. reflexivity.
  - vm_compute. reflexivity.
  - exact H.
  - rewrite H. apply (bool_decide_unpack _). vm_compute. reflexivity.
Qed.

(** ** Transcript acquisition *)

Ltac run_monad :=
  unfold mbind, M_bind, mret, M_ret, emit, set_status, clear_status,
         read_cache, write_cache; cbn beta iota zeta;
  cbn [cache status trace fst snd].

Lemma added_events_app (w w' : World) (l : list event) :
  trace w' = trace w ++ l -> added_events w w' = l.
Proof. intros H. unfold added_events. rewrite H. apply drop_app_length. Qed.

Lemma select_track_run (tl : TranscriptList) (w : World) :
  cache (snd (select_track tl w)) = cache w
  /\ exists l, trace (snd (select_track tl w)) = trace w ++ l
            /\ methods_tried l = caption_methods tl
            /\ List.filter is_fetch l = [].
Proof.
  unfold select_track, caption_methods, manual_track, auto_track. run_monad.
  destruct (List.find _ (tracks tl)); [by (split; [|exists [LookManual]])|].
  destruct (List.find _ (tracks tl)); cbn [cache status trace fst snd].
  - split; [reflexivity|]. exists [LookManual; LookAuto]. by rewrite <- app_assoc.
  - destruct (find_transcript tl english); cbn [cache status trace fst snd];
      (split; [reflexivity|]; exists [LookManual; LookAuto; FindEnglish];
       by rewrite <- !app_assoc).
Qed.

Lemma methods_tried_app (l1 l2 : list event) :
  methods_tried (l1 ++ l2) = methods_tried l1 ++ methods_tried l2.
Proof. apply omap_app. Qed.

Lemma get_transcript_from_youtube_run clean_up env video_id (w : World) :
  let out := get_transcript_from_youtube clean_up env video_id w in
  cache (snd out) = cache w
  /\ exists l, trace (snd out) = trace w ++ l
            /\ methods_tried l
               = match api_list env video_id with
                 | Ok tl => caption_methods tl
                 | Raised _ => []
                 end
            /\ length (List.filter is_fetch l) <= 1.
Proof.
  cbn zeta. unfold get_transcript_from_youtube. run_monad.
  destruct (api_list env video_id) as [tl|e]; cbn [cache status trace fst snd].
  2:{ split; [reflexivity|]. exists [ListCaptions video_id].
      repeat split; simpl; lia || reflexivity. }
  match goal with |- context [select_track tl ?w0] =>
    destruct (select_track_run tl w0) as (Hc & l & Ht & Hm & Hn);
    destruct (select_track tl w0) as [chosen w1] end.
  cbn [cache status trace fst snd] in *.
  destruct chosen as [[transcript source]|]; cbn [cache status trace fst snd].
  - destruct (fetch transcript); cbn [cache status trace fst snd];
      (split; [assumption|];
       exists ([ListCaptions video_id] ++ l ++ [FetchCaptions source]);
       rewrite Ht, <- !app_assoc; split; [reflexivity|];
       rewrite !methods_tried_app, !List.filter_app, Hm, Hn;
       split; [apply app_nil_r | simpl; lia]).
  - split; [assumption|]. exists ([ListCaptions video_id] ++ l).
    rewrite Ht, <- !app_assoc. split; [reflexivity|].
    rewrite !methods_tried_app, !List.filter_app, Hm, Hn. split; [reflexivity | simpl; lia].
Qed.

Lemma get_transcript_from_whisper_run env url (w : World) :
  let out := get_transcript_from_whisper env url w in
  cache (snd out) = cache w /\ trace (snd out) = trace w ++ [RunWhisper url].
Proof.
  cbn zeta. unfold get_transcript_from_whisper. run_monad.
  destruct (whisper_transcribe env url); by cbn [cache status trace fst snd].
Qed.

Lemma fall_back_to_whisper_run env url video_id (w : World) :
  let out := fall_back_to_whisper env url video_id w in
  exists l, trace (snd out) = trace w ++ l
         /\ methods_tried l = [SpeechToText]
         /\ List.filter is_fetch l = []
         /\ (Str.truthy (fst (fst out)) = true ->
             exists entry, cache (snd out) !! video_id = Some entry
                        /\ fst (fst out) = Some (text entry)).
Proof.
  cbn zeta. unfold fall_back_to_whisper. run_monad.
  destruct (get_transcript_from_whisper_run env url w) as (Hc & Ht).
  destruct (get_transcript_from_whisper env url w) as [[transcript source] w1].
  cbn [cache status trace fst snd] in *.
  destruct (Str.truthy transcript) eqn:Htruthy; run_monad.
  - exists [RunWhisper url; CacheWrite video_id]. rewrite Ht, <- app_assoc.
    repeat split. intros _. eexists. rewrite lookup_insert_eq. split; [reflexivity|].
    by destruct transcript.
  - exists [RunWhisper url]. repeat split; [assumption|]. intros H. congruence.
Qed.

Lemma get_transcript_hit clean_up env use_whisper url video_id (w : World) entry :
  cache w !! video_id = Some entry ->
  let out := get_transcript clean_up env use_whisper url video_id w in
  fst out = (Some (text entry), source entry ++ (lit "_cached"))
  /\ cache (snd out) = cache w
  /\ trace (snd out) = trace w ++ [CacheRead video_id].
Proof.
  intros Hhit. cbn zeta. unfold get_transcript. run_monad. rewrite Hhit.
  by cbn [cache status trace fst snd].
Qed.

Lemma get_transcript_miss clean_up env use_whisper url video_id (w : World) :
  cache w !! video_id = None ->
  let out := get_transcript clean_up env use_whisper url video_id w in
  let captions := fst (fst (get_transcript_from_youtube clean_up env video_id w)) in
  exists l, trace (snd out) = trace w ++ l
    /\ methods_tried l
       = (if use_whisper then [SpeechToText]
          else match api_list env video_id with
               | Ok tl => caption_methods tl
               | Raised _ => []
               end ++ (if Str.truthy captions then [] else [SpeechToText]))
    /\ length (List.filter is_fetch l) <= 1
    /\ (Str.truthy (fst (fst out)) = true ->
        exists entry, cache (snd out) !! video_id = Some entry
                   /\ fst (fst out) = Some (text entry)).
Proof.
  intros Hmiss. cbn zeta. unfold get_transcript. run_monad. rewrite Hmiss.
  destruct use_whisper; cbn [negb].
  - destruct (fall_back_to_whisper_run env url video_id w) as (l & Ht & Hm & Hf & Hc).
    exists l. rewrite Hf. repeat split; try assumption. simpl; lia.
  - destruct (get_transcript_from_youtube_run clean_up env video_id w)
      as (Hc & l & Ht & Hm & Hf).
    destruct (get_transcript_from_youtube clean_up env video_id w)
      as [[transcript source] w1].
    cbn [cache status trace fst snd] in *.
    destruct (Str.truthy transcript) eqn:Htruthy; run_monad.
    + exists (l ++ [CacheWrite video_id]). rewrite Ht, <- app_assoc.
      rewrite methods_tried_app, List.filter_app, Hm, !app_nil_r.
      repeat split; try assumption.
      intros _. eexists. rewrite lookup_insert_eq. split; [reflexivity|].
      by destruct transcript.
    + destruct (fall_back_to_whisper_run env url video_id w1) as (l2 & Ht2 & Hm2 & Hf2 & Hc2).
      exists (l ++ l2). rewrite Ht2, Ht, <- app_assoc.
      rewrite methods_tried_app, List.filter_app, Hm, Hm2, Hf2, app_nil_r.
      repeat split; assumption.
Qed.

Lemma caption_methods_sublist (tl : TranscriptList) (tail : list method) :
  tail = [] \/ tail = [SpeechToText] ->
  caption_methods tl ++ tail `sublist_of` chain.
Proof.
  unfold caption_methods.
  intros [-> | ->]; destruct (manual_track tl); try destruct (auto_track tl);
    simpl; unfold chain; repeat constructor.
Qed.

(** C5, as the code has it.  A cache hit tries no method at all.  On a
    cache miss the methods tried are taken in the order of the chain and
    none is tried twice; with [use_whisper] set, speech-to-text is the
    only one; otherwise the choice of a caption track goes manual, then
    generated, then any English variant, and stops at the first track
    found; at most one track is fetched; and speech-to-text follows
    exactly when the caption step gave no text. *)
Theorem fallback_order (clean_up : str -> str) (env : Env)
    (use_whisper : bool) (url video_id : str) (w : World) :
  let out := get_transcript clean_up env use_whisper url video_id w in
  let tried := methods_tried (added_events w (snd out)) in
  let captions := fst (fst (get_transcript_from_youtube clean_up env video_id w)) in
  (is_Some (cache w !! video_id) -> tried = [])
  /\ (cache w !! video_id = None ->
      tried `sublist_of` chain
      /\ (use_whisper = true -> tried = [SpeechToText])
      /\ (use_whisper = false ->
          tried = match api_list env video_id with
                  | Ok tl => caption_methods tl
                  | Raised _ => []
                  end ++ (if Str.truthy captions then [] else [SpeechToText]))
      /\ length (List.filter is_fetch (added_events w (snd out))) <= 1).
Proof.
  cbn zeta. split.
  - intros [entry Hhit].
    destruct (get_transcript_hit clean_up env use_whisper url video_id w entry Hhit)
      as (_ & _ & Ht).
    by rewrite (added_events_app _ _ _ Ht).
  - intros Hmiss.
    destruct (get_transcript_miss clean_up env use_whisper url video_id w Hmiss)
      as (l & Ht & Hm & Hf & _).
    rewrite (added_events_app _ _ _ Ht), Hm.
    split; [|split; [|split]].
    + destruct use_whisper; [unfold chain; repeat constructor|].
      destruct (api_list env video_id) as [tl|e].
      * apply caption_methods_sublist. destruct (Str.truthy _); auto.
      * destruct (Str.truthy _); simpl; unfold chain; repeat constructor.
    + by intros ->.
    + by intros ->.
    + assumption.
Qed.

Lemma fallback_order_witness :
  methods_tried
    (added_events fresh_world
       (snd (get_transcript id env_captions false sample_url (lit "abc123XYZ_-") fresh_world)))
  = [ManualCaptions].
Proof.
  destruct (fallback_order id env_captions false sample_url (lit "abc123XYZ_-") fresh_world)
    as (_ & Hmiss).
  destruct Hmiss as (_ & _ & Hcaptions & _); [reflexivity|].
  rewrite Hcaptions; [|reflexivity]. vm_compute. reflexivity.
Defined.

(** C5, as stated, fails in two ways.  With [use_whisper] set, manual
    captions that would give a transcript are never tried.  Without it,
    when the manual track is found and fetching it fails, the generated
    track, which would give a transcript, is passed over and
    speech-to-text comes next. *)
Lemma fallback_chain_not_followed :
  methods_tried
    (added_events fresh_world
       (snd (get_transcript id env_captions true sample_url (lit "abc123XYZ_-") fresh_world)))
  = [SpeechToText]
  /\ spec_fallback_chain id env_captions sample_url (lit "abc123XYZ_-") = [ManualCaptions]
  /\ methods_tried
       (added_events fresh_world
          (snd (get_transcript id env_broken_manual false sample_url (lit "abc123XYZ_-")
                  fresh_world)))
     = [ManualCaptions; SpeechToText]
  /\ spec_fallback_chain id env_broken_manual sample_url (lit "abc123XYZ_-")
     = [ManualCaptions; AutoCaptions].
Proof. repeat split; vm_compute; reflexivity. Qed.
Lemma select_track_spec (tl : TranscriptList) (w : World) :
  select_track tl w
  = (chosen_track tl,
     {| cache := cache w; status := status w;
        trace := trace w ++ selection_events tl |}).
Proof.
  unfold select_track, chosen_track, selection_events, manual_track, auto_track.
  run_monad.
  destruct (List.find _ (tracks tl)); [reflexivity|].
  destruct (List.find _ (tracks tl)); cbn [cache status trace];
    [by rewrite <- app_assoc|].
  destruct (find_transcript tl english); cbn [cache status trace];
    by rewrite <- !app_assoc.
Qed.

Lemma get_transcript_from_youtube_spec clean_up env video_id (w : World) :
  get_transcript_from_youtube clean_up env video_id w
  = (captions_answer clean_up env video_id,
     {| cache := cache w; status := Some status_captions;
        trace := trace w ++ captions_events env video_id |}).
Proof.
  unfold get_transcript_from_youtube, captions_answer, captions_events. run_monad.
  destruct (api_list env video_id) as [tl|e]; [|reflexivity].
  rewrite select_track_spec. cbn [cache status trace].
  destruct (chosen_track tl) as [[t src]|]; cbn [cache status trace].
  - destruct (fetch t); cbn [cache status trace];
      by rewrite <- !app_assoc.
  - by rewrite <- !app_assoc, app_nil_r.
Qed.

Lemma get_transcript_from_whisper_spec env url (w : World) :
  get_transcript_from_whisper env url w
  = (whisper_answer env url,
     {| cache := cache w; status := Some (whisper_status env url);
        trace := trace w ++ [RunWhisper url] |}).
Proof.
  unfold get_transcript_from_whisper, whisper_answer, whisper_status. run_monad.
  by destruct (whisper_transcribe env url).
Qed.

(** [get_transcript] written out as one case analysis on the cache, the
    flag and the answers of the two services. *)
Lemma get_transcript_spec clean_up env use_whisper url video_id (w : World) :
  get_transcript clean_up env use_whisper url video_id w
  = transcript_run clean_up env use_whisper url video_id w.
Proof.
  unfold get_transcript, transcript_run, fall_back_to_whisper. run_monad.
  destruct (cache w !! video_id); [reflexivity|].
  destruct use_whisper; cbn [negb andb].
  - rewrite get_transcript_from_whisper_spec. cbn [fst snd cache status trace].
    destruct (Str.truthy (whisper_answer env url).1); run_monad;
      by rewrite <- ?app_assoc, ?app_nil_r.
  - rewrite get_transcript_from_youtube_spec. cbn [fst snd cache status trace].
    destruct (Str.truthy (captions_answer clean_up env video_id).1); run_monad.
    + by rewrite <- ?app_assoc.
    + rewrite get_transcript_from_whisper_spec. cbn [fst snd cache status trace].
      destruct (Str.truthy (whisper_answer env url).1); run_monad;
        by rewrite <- ?app_assoc, ?app_nil_r.
Qed.

Lemma captions_answer_source clean_up env video_id :
  Str.truthy (fst (captions_answer clean_up env video_id)) = true ->
  snd (captions_answer clean_up env video_id)
  ∈ [ (lit "manual_captions"); (lit "auto_captions"); (lit "english_captions") ].
Proof.
  unfold captions_answer, chosen_track.
  destruct (api_list env video_id) as [tl|e]; [|discriminate].
  destruct (manual_track tl) as [t|].
  { destruct (fetch t); [intros _; repeat constructor | discriminate]. }
  destruct (auto_track tl) as [t|].
  { destruct (fetch t); [intros _; repeat constructor | discriminate]. }
  destruct (find_transcript tl english) as [t|]; [|discriminate].
  destruct (fetch t); [intros _; repeat constructor | discriminate].
Qed.

Lemma whisper_answer_source env url :
  Str.truthy (fst (whisper_answer env url)) = true ->
  snd (whisper_answer env url) = (lit "whisper").
Proof.
  unfold whisper_answer. by destruct (whisper_transcribe env url).
Qed.

Lemma truthy_entry (r : option str * str) :
  Str.truthy (fst r) = true -> fst r = Some (text (entry_of r)) /\ text (entry_of r) <> [].
Proof.
  destruct r as [[[|c s]|] src]; simpl; try discriminate. by intros _.
Qed.

(** The first network call of a call that finds no cache entry: the
    caption listing, or the audio download when the flag is set. *)
Lemma transcript_run_miss_network clean_up env use_whisper url video_id (w : World) :
  cache w !! video_id = None ->
  exists rest,
    network_calls
      (added_events w (snd (transcript_run clean_up env use_whisper url video_id w)))
    = (if use_whisper then RunWhisper url else ListCaptions video_id) :: rest.
Proof.
  intros Hmiss. unfold transcript_run, added_events, network_calls. rewrite Hmiss.
  destruct use_whisper; cbn [negb andb fst snd trace].
  - rewrite drop_app_length. simpl. eauto.
  - destruct (Str.truthy (captions_answer clean_up env video_id).1);
      cbn [fst snd trace]; rewrite drop_app_length;
      unfold captions_events; simpl; eauto.
Qed.

(** A call that finds no cache entry and comes back without a transcript
    leaves the cache as it was. *)
Lemma transcript_run_miss_falsy clean_up env use_whisper url video_id (w : World) :
  cache w !! video_id = None ->
  Str.truthy (fst (fst (transcript_run clean_up env use_whisper url video_id w))) = false ->
  cache (snd (transcript_run clean_up env use_whisper url video_id w)) = cache w.
Proof.
  intros Hmiss. unfold transcript_run. rewrite Hmiss.
  destruct (negb use_whisper && Str.truthy (captions_answer clean_up env video_id).1)
    eqn:Hcap; cbn [fst snd cache].
  - apply andb_true_iff in Hcap as [_ Htruthy]. congruence.
  - by intros ->.
Qed.

(** C4, as the code has it.  When a call comes back with a transcript,
    the next call for the same identifier only reads the cache: it adds
    no network event to the trace, whatever the caption service and the
    speech-to-text would answer by then, and it returns the same text.
    When a call finds no cache entry and comes back without a transcript
    (nothing, or an empty text), it writes no cache entry, and the next
    call for the same identifier goes to the network again, first to the
    caption listing, or to the audio download when its flag is set. *)
Theorem second_call_from_cache (clean_up : str -> str) (env1 env2 : Env)
    (use_whisper1 use_whisper2 : bool) (url video_id : str) (w : World) :
  let first := get_transcript clean_up env1 use_whisper1 url video_id w in
  let second := get_transcript clean_up env2 use_whisper2 url video_id (snd first) in
  (Str.truthy (fst (fst first)) = true ->
   added_events (snd first) (snd second) = [CacheRead video_id]
   /\ network_calls (added_events (snd first) (snd second)) = []
   /\ fst (fst second) = fst (fst first))
  /\ (cache w !! video_id = None ->
      Str.truthy (fst (fst first)) = false ->
      cache (snd first) = cache w
      /\ exists rest,
           network_calls (added_events (snd first) (snd second))
           = (if use_whisper2 then RunWhisper url else ListCaptions video_id) :: rest).
Proof.
  cbn zeta. split.
  - intros Htruthy.
    set (first := get_transcript clean_up env1 use_whisper1 url video_id w) in *.
    assert (Hentry : exists entry, cache (snd first) !! video_id = Some entry
                                /\ fst (fst first) = Some (text entry)).
    { destruct (cache w !! video_id) as [entry|] eqn:Hw.
      - destruct (get_transcript_hit clean_up env1 use_whisper1 url video_id w entry Hw)
          as (Hr & Hc & _). fold first in Hr, Hc.
        exists entry. rewrite Hc, Hr. auto.
      - destruct (get_transcript_miss clean_up env1 use_whisper1 url video_id w Hw)
          as (l & _ & _ & _ & Hc). by apply Hc. }
    destruct Hentry as (entry & Hcache & Hr).
    destruct (get_transcript_hit clean_up env2 use_whisper2 url video_id (snd first)
                entry Hcache) as (Hr2 & _ & Ht2).
    rewrite (added_events_app _ _ _ Ht2), Hr2, Hr. by repeat split.
  - rewrite !get_transcript_spec. intros Hmiss Hfalsy.
    pose proof (transcript_run_miss_falsy _ _ _ _ _ _ Hmiss Hfalsy) as Hcache.
    split; [assumption|].
    apply transcript_run_miss_network. by rewrite Hcache.
Qed.

Lemma second_call_from_cache_witness :
  network_calls
    (added_events
       (snd (get_transcript id env_captions false sample_url (lit "abc123XYZ_-")
               fresh_world))
       (snd (get_transcript id env_nothing false sample_url (lit "abc123XYZ_-")
               (snd (get_transcript id env_captions false sample_url
                       (lit "abc123XYZ_-") fresh_world)))))
  = []
  /\ exists rest,
       network_calls
         (added_events
            (snd (get_transcript id env_nothing false sample_url (lit "abc123XYZ_-")
                    fresh_world))
            (snd (get_transcript id env_captions false sample_url (lit "abc123XYZ_-")
                    (snd (get_transcript id env_nothing false sample_url
                            (lit "abc123XYZ_-") fresh_world)))))
       = ListCaptions (lit "abc123XYZ_-") :: rest.
Proof.
  split.
  - apply (second_call_from_cache id env_captions env_nothing false false
             sample_url (lit "abc123XYZ_-") fresh_world).
    vm_compute. reflexivity.
  - apply (second_call_from_cache id env_nothing env_captions false false
             sample_url (lit "abc123XYZ_-") fresh_world).
    + vm_compute. reflexivity.
    + vm_compute. reflexivity.
Defined.

(** C4, as stated, fails when the first call obtains no transcript:
    nothing is written to the cache, and the second call goes to the
    caption service and to the audio download again. *)
Lemma second_call_after_failure :
  let first :=
    get_transcript id env_nothing false sample_url (lit "abc123XYZ_-") fresh_world in
  let second :=
    get_transcript id env_nothing false sample_url (lit "abc123XYZ_-") (snd first) in
  fst (fst first) = None
  /\ network_calls (added_events fresh_world (snd first))
     = [ListCaptions (lit "abc123XYZ_-"); RunWhisper sample_url]
  /\ network_calls (added_events (snd first) (snd second))
     = [ListCaptions (lit "abc123XYZ_-"); RunWhisper sample_url].
Proof. repeat split; vm_compute; reflexivity. Qed.

(** ** The pipeline *)

Lemma get_transcript_from_youtube_result clean_up env video_id (w w' : World) :
  fst (get_transcript_from_youtube clean_up env video_id w)
  = fst (get_transcript_from_youtube clean_up env video_id w').
Proof.
  unfold get_transcript_from_youtube, select_track. run_monad.
  destruct (api_list env video_id) as [tl|e]; [|reflexivity].
  destruct (List.find _ (tracks tl)) as [t|]; cbn [fst snd].
  { by destruct (fetch t). }
  destruct (List.find _ (tracks tl)) as [t|]; cbn [fst snd].
  { by destruct (fetch t). }
  destruct (find_transcript tl english) as [t|]; cbn [fst snd]; [|reflexivity].
  by destruct (fetch t).
Qed.

Lemma get_transcript_from_whisper_result env url (w w' : World) :
  fst (get_transcript_from_whisper env url w)
  = fst (get_transcript_from_whisper env url w').
Proof.
  unfold get_transcript_from_whisper. run_monad.
  by destruct (whisper_transcribe env url).
Qed.

Lemma fall_back_to_whisper_result env url video_id (w w' : World) :
  fst (fall_back_to_whisper env url video_id w)
  = fst (fall_back_to_whisper env url video_id w').
Proof.
  unfold fall_back_to_whisper. run_monad.
  pose proof (get_transcript_from_whisper_result env url w w') as H.
  destruct (get_transcript_from_whisper env url w) as [r w1].
  destruct (get_transcript_from_whisper env url w') as [r' w1'].
  simpl in H. subst r'. cbn [fst snd].
  by destruct (Str.truthy (fst r)).
Qed.

(** The answer of [get_transcript] depends on the world through the
    cache only. *)
Lemma get_transcript_result clean_up env use_whisper url video_id (w w' : World) :
  cache w = cache w' ->
  fst (get_transcript clean_up env use_whisper url video_id w)
  = fst (get_transcript clean_up env use_whisper url video_id w').
Proof.
  intros Hc. unfold get_transcript. run_monad. rewrite <- Hc.
  destruct (cache w !! video_id); [reflexivity|].
  destruct use_whisper; cbn [negb]; [apply fall_back_to_whisper_result|].
  pose proof (get_transcript_from_youtube_result clean_up env video_id w w') as H.
  destruct (get_transcript_from_youtube clean_up env video_id w) as [r w1].
  destruct (get_transcript_from_youtube clean_up env video_id w') as [r' w1'].
  simpl in H. subst r'. cbn [fst snd].
  destruct (Str.truthy (fst r)); [reflexivity | apply fall_back_to_whisper_result].
Qed.

Lemma extract_video_id_truthy {U : Unicode} (url video_id : str) :
  extract_video_id url = Some video_id -> Str.truthy (Some video_id) = true.
Proof.
  intros H. apply first_match_Some in H as (p & _ & H).
  apply re_search_Some in H as (_ & _ & _ & Hne & _).
  by destruct video_id.
Qed.

Lemma failed_metadata_error url e :
  failed_metadata url e !! "error" = Some (Some (message e)).
Proof. vm_compute. reflexivity. Qed.

Lemma failed_metadata_title url e :
  failed_metadata url e !! "title" = Some (Some (lit "Unknown")).
Proof. vm_compute. reflexivity. Qed.

Lemma fetched_metadata_error url info : fetched_metadata url info !! "error" = None.
Proof. vm_compute. reflexivity. Qed.

Lemma fetched_metadata_title url info :
  fetched_metadata url info !! "title" = Some (meta_get info "title" (lit "Unknown")).
Proof. vm_compute. reflexivity. Qed.

(** [analyze] written out as one case analysis on the URL, the answer of
    the downloader and the outcome of the transcript step. *)
Lemma analyze_spec {U : Unicode} (find_specific_values : str -> list specific_value)
    (clean_up : str -> str) (create_summary : PineSpec -> str)
    (timestamp : str) (env : Env) (use_whisper : bool) (url : str) (w : World) :
  analyze find_specific_values clean_up create_summary timestamp env use_whisper url w
  = analyze_run find_specific_values clean_up create_summary timestamp env
      use_whisper url w.
Proof.
  unfold analyze, analyze_run, get_video_metadata. run_monad.
  destruct (extract_video_id url) as [video_id|] eqn:Hid; [|reflexivity].
  rewrite (extract_video_id_truthy _ _ Hid). cbn [negb].
  destruct (extract_info env url) as [info|e]; cbn [fst snd cache status trace].
  - fold (fetched_metadata url info). rewrite fetched_metadata_error.
    rewrite (bool_decide_eq_false_2 (is_Some None)) by (by intros [? ?]).
    cbn [andb default from_option id]. rewrite get_transcript_spec.
    destruct (transcript_run _ _ _ _ _ _) as [r w1]. cbn [fst snd].
    destruct (Str.truthy (fst r)); cbn [negb]; [|reflexivity].
    unfold save_analysis, report. run_monad. reflexivity.
  - fold (failed_metadata url e).
    rewrite failed_metadata_error, failed_metadata_title.
    rewrite (bool_decide_eq_true_2 _ (ltac:(eauto) : is_Some (Some (Some (message e))))).
    rewrite (bool_decide_eq_true_2 _
               (eq_refl : Some (Some (lit "Unknown")) = Some (Some (lit "Unknown")))).
    reflexivity.
Qed.

(** ** The unguarded steps *)

Ltac run_faulty :=
  unfold Faulty.bind, Faulty.lift, Faulty.ret, Faulty.raise; run_monad.

(** [Faulty.get_transcript] written out: it raises exactly the exception
    of [transcript_fault], and otherwise does what [get_transcript]
    does. *)
Lemma faulty_get_transcript_spec faults clean_up env use_whisper url video_id
    (w : World) :
  match transcript_fault faults clean_up env use_whisper url video_id w with
  | Some e =>
      fst (Faulty.get_transcript faults clean_up env use_whisper url video_id w)
      = Raised e
  | None =>
      Faulty.get_transcript faults clean_up env use_whisper url video_id w
      = (Ok (fst (transcript_run clean_up env use_whisper url video_id w)),
         snd (transcript_run clean_up env use_whisper url video_id w))
  end.
Proof.
  unfold Faulty.get_transcript, Faulty.fall_back_to_whisper, Faulty.write_cache,
    transcript_fault, transcript_run.
  run_faulty.
  destruct (cache w !! video_id) as [entry|].
  { cbn [fst snd]. by destruct (Faulty.cache_load faults video_id). }
  destruct use_whisper; cbn [negb andb].
  - rewrite get_transcript_from_whisper_spec. cbn [fst snd cache status trace].
    destruct (Str.truthy (whisper_answer env url).1) eqn:Hspeech; cbn [fst snd];
      rewrite ?Hspeech, ?Hcap.
    + destruct (Faulty.cache_dump faults video_id); [reflexivity|].
      run_faulty. by rewrite <- ?app_assoc, ?app_nil_r.
    + by rewrite <- ?app_assoc, ?app_nil_r.
  - rewrite get_transcript_from_youtube_spec. cbn [fst snd cache status trace].
    destruct (Str.truthy (captions_answer clean_up env video_id).1) eqn:Hcap;
      cbn [fst snd]; rewrite ?Hcap.
    + destruct (Faulty.cache_dump faults video_id); [reflexivity|].
      run_faulty. by rewrite <- ?app_assoc.
    + rewrite get_transcript_from_whisper_spec. cbn [fst snd cache status trace].
      destruct (Str.truthy (whisper_answer env url).1) eqn:Hspeech; cbn [fst snd];
      rewrite ?Hspeech, ?Hcap.
      * destruct (Faulty.cache_dump faults video_id); [reflexivity|].
        run_faulty. by rewrite <- ?app_assoc, ?app_nil_r.
      * by rewrite <- ?app_assoc, ?app_nil_r.
Qed.

(** [Faulty.analyze] written out: it raises exactly the exception of
    [analyze_fault], and otherwise does what [analyze] does. *)
Lemma faulty_analyze_spec {U : Unicode} faults
    (find_specific_values : str -> list specific_value)
    (clean_up : str -> str) (create_summary : PineSpec -> str)
    (timestamp : str) (env : Env) (use_whisper : bool) (url : str) (w : World) :
  match analyze_fault faults clean_up timestamp env use_whisper url w with
  | Some e =>
      fst (Faulty.analyze faults find_specific_values clean_up create_summary
             timestamp env use_whisper url w)
      = Raised e
  | None =>
      Faulty.analyze faults find_specific_values clean_up create_summary
        timestamp env use_whisper url w
      = (Ok (fst (analyze_run find_specific_values clean_up create_summary timestamp
                    env use_whisper url w)),
         snd (analyze_run find_specific_values clean_up create_summary timestamp
                env use_whisper url w))
  end.
Proof.
  unfold Faulty.analyze, analyze_fault, analyze_run, get_video_metadata,
    Faulty.show_title, Faulty.save_analysis.
  run_faulty.
  destruct (extract_video_id url) as [video_id|] eqn:Hid; [|reflexivity].
  rewrite (extract_video_id_truthy _ _ Hid). cbn [negb].
  destruct (extract_info env url) as [info|e]; cbn [fst snd cache status trace].
  2:{ fold (failed_metadata url e).
      rewrite failed_metadata_error, failed_metadata_title.
      rewrite (bool_decide_eq_true_2 _
                 (ltac:(eauto) : is_Some (Some (Some (message e))))).
      rewrite (bool_decide_eq_true_2 _
                 (eq_refl : Some (Some (lit "Unknown")) = Some (Some (lit "Unknown")))).
      reflexivity. }
  fold (fetched_metadata url info).
  rewrite fetched_metadata_error, fetched_metadata_title.
  rewrite (bool_decide_eq_false_2 (is_Some None)) by (by intros [? ?]).
  cbn [andb default from_option id].
  destruct (meta_get info "title" (lit "Unknown")); run_faulty; [|reflexivity].
  match goal with |- context [transcript_fault ?f ?c ?e ?u ?l ?v ?w0] =>
    pose proof (faulty_get_transcript_spec f c e u l v w0) as Hstep;
    destruct (transcript_fault f c e u l v w0) as [ex|]
  end.
  { destruct (Faulty.get_transcript _ _ _ _ _ _ _) as [[r|ex'] w1];
      cbn [fst] in Hstep; [discriminate|]. by injection Hstep as ->. }
  rewrite Hstep. cbn [fst snd].
  destruct (transcript_run _ _ _ _ _ _) as [r w1]. cbn [fst snd].
  destruct (Str.truthy (fst r)); cbn [negb]; [|reflexivity].
  destruct (Faulty.analysis_dump faults _); [reflexivity|].
  unfold save_analysis, report. run_faulty. reflexivity.
Qed.

(** The title that [get_video_metadata] stores is [None] exactly when the
    downloader gave [None] for it. *)
Lemma meta_get_None (d : gmap string value) (key : string) (fallback : str) :
  meta_get d key fallback = None <-> d !! key = Some None.
Proof.
  unfold meta_get. destruct (d !! key) as [[v|]|]; simpl; split; congruence.
Qed.

(** The three failures that [analyze] reports, the dictionaries it
    returns, and when it returns a success. *)
Lemma analyze_run_outcomes {U : Unicode}
    (find_specific_values : str -> list specific_value)
    (clean_up : str -> str) (create_summary : PineSpec -> str)
    (timestamp : str) (env : Env) (use_whisper : bool) (url : str) (w : World) :
  let res := fst (analyze_run find_specific_values clean_up create_summary timestamp
                    env use_whisper url w) in
  (extract_video_id url = None -> res = failure (lit "Invalid YouTube URL") None)
  /\ (forall video_id e,
        extract_video_id url = Some video_id -> extract_info env url = Raised e ->
        res = failure (lit "Could not access video: " ++ message e) None)
  /\ (forall video_id info,
        extract_video_id url = Some video_id -> extract_info env url = Ok info ->
        let r := fst (get_transcript clean_up env use_whisper url video_id w) in
        if Str.truthy (fst r)
        then success res = true
        else res = failure (lit "Could not get transcript (" ++ snd r
                              ++ lit "). Try with --whisper flag.")
                           (Some (fetched_metadata url info))).
Proof.
  cbn zeta. unfold analyze_run. split; [|split].
  - by intros ->.
  - by intros video_id e -> ->.
  - intros video_id info -> ->. cbn zeta.
    match goal with |- context [transcript_run ?c ?e ?u ?l ?v ?w0] =>
      rewrite (get_transcript_result c e u l v w w0 eq_refl);
      rewrite (get_transcript_spec c e u l v w0);
      destruct (transcript_run c e u l v w0) as [r w1]
    end.
    cbn [fst snd]. by destruct (Str.truthy (fst r)).
Qed.




(** ** Exit status *)

Section ExitStatus.

Context {U : Unicode}.

Variable find_specific_values : str -> list specific_value.
Variable clean_up : str -> str.
Variable create_summary : PineSpec -> str.
Variable timestamp : str.
Variable env : Env.

(** The exit status for every command line: with [--json] it is 0
    whatever the analysis gave; without, it is 1 exactly on failure. *)
Lemma main_exit_status (args : Args) (w : World) :
  let out := fst (main find_specific_values clean_up create_summary timestamp env
                    args w) in
  fst out = fst (analyze find_specific_values clean_up create_summary timestamp env
                   (whisper args) (url args) w)
  /\ exit_status (snd out)
     = (if json args then 0 else if success (fst out) then 0 else 1)%Z.
Proof.
  cbn zeta. unfold main. run_monad.
  destruct (analyze _ _ _ _ _ _ _ w) as [result w1]. cbn [fst snd].
  destruct (json args); [by cbn|].
  destruct (success result) eqn:E; cbn [fst snd]; by rewrite ?E.
Qed.

End ExitStatus.

(** C1 does not hold of the code: with [--json], a run whose analysis
    fails returns from [main] without [sys.exit], so the process ends
    with status 0; the same failure without [--json] ends with
    status 1. *)
Theorem main_json_failure_exit_status :
  let failing := fun as_json : bool =>
    fst (main (U:=basic_latin) (fun _ => []) id (fun _ => []) (lit "20240101_000000")
           env_captions
           {| url := (lit "https://example.com/not-a-video"); whisper := false;
              model := (lit "base"); json := as_json |}
           fresh_world) in
  success (fst (failing true)) = false
  /\ exit_status (snd (failing true)) = 0%Z
  /\ success (fst (failing false)) = false
  /\ exit_status (snd (failing false)) = 1%Z.
Proof. repeat split; vm_compute; reflexivity. Qed.

(** ** Sentences and keywords *)

Lemma occurs_in_refl (a : str) : occurs_in a a.
Proof. exists [], []. by rewrite app_nil_r. Qed.

Lemma occurs_in_trans (a b c : str) : occurs_in a b -> occurs_in b c -> occurs_in a c.
Proof.
  intros (p1 & q1 & ->) (p2 & q2 & ->).
  exists (p2 ++ p1), (q1 ++ q2). by rewrite <- !app_assoc.
Qed.

Lemma occurs_in_cons (c : N) (a b : str) : occurs_in a b -> occurs_in a (c :: b).
Proof. intros (p & q & ->). by exists (c :: p), q. Qed.

Lemma startswith_prefix (p s : str) :
  Str.startswith p s = true <-> exists post, s = p ++ post.
Proof.
  revert s. induction p as [|a p IH]; intros s; simpl.
  - split; [intros _; by exists s | reflexivity].
  - destruct s as [|b s].
    + split; [discriminate | intros [post H]; discriminate].
    + destruct (N.eqb a b) eqn:E.
      * apply N.eqb_eq in E. subst b. rewrite IH.
        split; intros [post H]; exists post; congruence.
      * apply N.eqb_neq in E. split; [discriminate|].
        intros [post H]. injection H as -> _. contradiction.
Qed.

Lemma contains_occurs (sub s : str) : Str.contains sub s = true <-> occurs_in sub s.
Proof.
  induction s as [|c s IH]; simpl.
  - rewrite startswith_prefix. split.
    + intros [post H]. by exists [], post.
    + intros (pre & post & H). destruct pre; [|discriminate].
      by exists post.
  - rewrite orb_true_iff, startswith_prefix, IH. split.
    + intros [[post H] | H]; [|by apply occurs_in_cons].
      by exists [], post.
    + intros (pre & post & H). destruct pre as [|x pre].
      * left. by exists post.
      * right. injection H as _ H. by exists pre, post.
Qed.

Lemma lstrip_occurs {U : Unicode} (s : str) : occurs_in (Str.lstrip s) s.
Proof.
  induction s as [|c s IH]; simpl; [apply occurs_in_refl|].
  destruct (Str.is_space c); [by apply occurs_in_cons | apply occurs_in_refl].
Qed.

Lemma rstrip_prefix {U : Unicode} (s : str) : exists post, s = Str.rstrip s ++ post.
Proof.
  induction s as [|c s [post IH]]; simpl; [by exists []|].
  destruct (Str.rstrip s) as [|x r] eqn:E.
  - destruct (Str.is_space c); [by exists (c :: s)|].
    by exists s.
  - exists post. simpl in *. congruence.
Qed.

Lemma strip_occurs {U : Unicode} (s : str) : occurs_in (Str.strip s) s.
Proof.
  unfold Str.strip. eapply occurs_in_trans; [|apply lstrip_occurs].
  destruct (rstrip_prefix (Str.lstrip s)) as [post H].
  by exists [], post.
Qed.

Lemma split_sentences_head (s piece : str) (rest : list str) :
  Str.split_sentences s = piece :: rest -> exists post, s = piece ++ post.
Proof.
  revert piece rest. induction s as [|c s IH]; intros piece rest; simpl.
  - intros [= <- _]. by exists [].
  - destruct (Str.is_terminator c).
    + intros [= <- _]. by exists (c :: s).
    + destruct (Str.split_sentences s) as [|p r] eqn:E.
      * intros [= <- _]. by exists s.
      * intros [= <- _]. destruct (IH p r eq_refl) as [post ->].
        by exists post.
Qed.

Lemma split_sentences_occurs (s piece : str) :
  piece ∈ Str.split_sentences s -> occurs_in piece s.
Proof.
  revert piece. induction s as [|c s IH]; intros piece; simpl.
  - intros ->%list_elem_of_singleton. apply occurs_in_refl.
  - destruct (Str.is_terminator c).
    + intros [-> | H]%elem_of_cons; [|by apply occurs_in_cons, IH].
      by exists [], (c :: s).
    + destruct (Str.split_sentences s) as [|p r] eqn:E.
      * intros ->%list_elem_of_singleton. by exists [], s.
      * intros [-> | H]%elem_of_cons.
        -- destruct (split_sentences_head s p r E) as [post ->].
           by exists [], post.
        -- apply occurs_in_cons, IH. by right.
Qed.

(** *** ASCII text *)

Lemma is_ascii_app (a b : str) :
  is_ascii (a ++ b) = is_ascii a && is_ascii b.
Proof. unfold is_ascii. apply forallb_app. Qed.

Lemma is_ascii_occurs (a b : str) :
  occurs_in a b -> is_ascii b = true -> is_ascii a = true.
Proof.
  intros (p & q & ->). rewrite !is_ascii_app, !andb_true_iff. tauto.
Qed.

(** On ASCII text [str.lower] works character by character, so it keeps
    the pieces of a text in place. *)
Lemma lower_occurs_ascii {U : Unicode} (a b : str) :
  is_ascii b = true -> occurs_in a b -> occurs_in (Str.lower a) (Str.lower b).
Proof.
  intros Hb Ha. unfold Str.lower.
  rewrite (py_lower_ascii b Hb), (py_lower_ascii a (is_ascii_occurs a b Ha Hb)).
  destruct Ha as (p & q & ->).
  exists (ascii_lower <$> p), (ascii_lower <$> q). by rewrite !fmap_app.
Qed.

(** A keyword found in the lowered, stripped sentence of an ASCII text
    is found in the lowered text. *)
Lemma any_in_sentence {U : Unicode} (words : list str) (text raw : str) :
  is_ascii text = true ->
  raw ∈ Str.split_sentences text ->
  any_in words (Str.lower (Str.strip raw)) = true ->
  any_in words (Str.lower text) = true.
Proof.
  intros Hascii Hraw. unfold any_in. rewrite !existsb_exists.
  intros (word & Hword & Hc). exists word. split; [assumption|].
  apply contains_occurs. apply contains_occurs in Hc.
  eapply occurs_in_trans; [exact Hc|]. apply lower_occurs_ascii; [assumption|].
  eapply occurs_in_trans; [apply strip_occurs | by apply split_sentences_occurs].
Qed.

Lemma scan_sentence_no_keywords {U : Unicode} (components : gmap string (list str))
    (raw : str) :
  any_in entry_keywords (Str.lower (Str.strip raw)) = false ->
  any_in exit_keywords (Str.lower (Str.strip raw)) = false ->
  scan_sentence components raw !! "entry_conditions" = components !! "entry_conditions"
  /\ scan_sentence components raw !! "exit_conditions" = components !! "exit_conditions".
Proof.
  intros Hentry Hexit. unfold scan_sentence.
  destruct (length (Str.strip raw) <? 10)%nat; [done|].
  rewrite Hentry, Hexit. cbn [andb when_then].
  unfold when_then, append_to.
  destruct (any_in risk_keywords _), (any_in rule_keywords _);
    by rewrite ?lookup_alter_ne.
Qed.

Lemma scan_all_no_keywords {U : Unicode} (text : str) (sentences : list str)
    (components : gmap string (list str)) :
  is_ascii text = true ->
  any_in entry_keywords (Str.lower text) = false ->
  any_in exit_keywords (Str.lower text) = false ->
  (forall raw, raw ∈ sentences -> raw ∈ Str.split_sentences text) ->
  fold_left scan_sentence sentences components !! "entry_conditions"
  = components !! "entry_conditions"
  /\ fold_left scan_sentence sentences components !! "exit_conditions"
     = components !! "exit_conditions".
Proof.
  intros Hascii Hentry Hexit. revert components.
  induction sentences as [|raw rest IH]; intros components Hsub; simpl; [done|].
  destruct (IH (scan_sentence components raw)) as [-> ->].
  { intros r Hr. apply Hsub. by right. }
  apply scan_sentence_no_keywords.
  - destruct (any_in entry_keywords (Str.lower (Str.strip raw))) eqn:E; [|reflexivity].
    rewrite (any_in_sentence _ text raw) in Hentry;
      [discriminate | assumption | apply Hsub; left | exact E].
  - destruct (any_in exit_keywords (Str.lower (Str.strip raw))) eqn:E; [|reflexivity].
    rewrite (any_in_sentence _ text raw) in Hexit;
      [discriminate | assumption | apply Hsub; left | exact E].
Qed.

Lemma no_keywords_no_conditions {U : Unicode} (text : str) :
  is_ascii text = true ->
  any_in entry_keywords (Str.lower text) = false ->
  any_in exit_keywords (Str.lower text) = false ->
  get_bucket (identify_strategy_components text) "entry_conditions" = []
  /\ get_bucket (identify_strategy_components text) "exit_conditions" = [].
Proof.
  intros Hascii Hentry Hexit.
  destruct (scan_all_no_keywords text (Str.split_sentences text) empty_components
              Hascii Hentry Hexit (fun _ H => H)) as [He Hx].
  unfold get_bucket, identify_strategy_components. cbn zeta.
  rewrite !lookup_fmap, He, Hx. by vm_compute.
Qed.

(** ** Script type *)

(** C7: a transcript whose components hold no entry condition and no
    exit condition gives a specification of script type ["indicator"];
    one whose components hold both gives ["strategy"]. *)
Theorem script_type_by_conditions {U : Unicode}
    (find_specific_values : str -> list specific_value)
    (now text : str) (metadata : gmap string value) (source : str) :
  let components := identify_strategy_components text in
  let spec :=
    generate_pine_script_spec now (extract_key_concepts find_specific_values text)
                              components metadata source in
  (get_bucket components "entry_conditions" = [] ->
   get_bucket components "exit_conditions" = [] ->
   script_type spec = lit "indicator")
  /\ (get_bucket components "entry_conditions" <> [] ->
      get_bucket components "exit_conditions" <> [] ->
      script_type spec = lit "strategy").
Proof.
  cbn zeta. unfold generate_pine_script_spec. cbn [script_type].
  split.
  - intros -> ->. reflexivity.
  - intros Hentry _.
    destruct (get_bucket _ "entry_conditions"); [contradiction | reflexivity].
Qed.

Lemma script_type_by_conditions_witness :
  script_type
    (generate_pine_script_spec (U:=basic_latin) (lit "2024-01-01T00:00:00")
       (extract_key_concepts (U:=basic_latin) (fun _ => [])
          (lit "The rsi shows momentum on the daily chart."))
       (identify_strategy_components (U:=basic_latin)
          (lit "The rsi shows momentum on the daily chart."))
       ∅ (lit "manual_captions")) = lit "indicator"
  /\ script_type
       (generate_pine_script_spec (U:=basic_latin) (lit "2024-01-01T00:00:00")
          (extract_key_concepts (U:=basic_latin) (fun _ => [])
             (lit "Buy when the rsi is low. Sell when the rsi is high."))
          (identify_strategy_components (U:=basic_latin)
             (lit "Buy when the rsi is low. Sell when the rsi is high."))
          ∅ (lit "manual_captions")) = lit "strategy".
Proof.
  split.
  - apply (script_type_by_conditions (U:=basic_latin) (fun _ => [])
             (lit "2024-01-01T00:00:00")
             (lit "The rsi shows momentum on the daily chart.") ∅
             (lit "manual_captions"));
      vm_compute; reflexivity.
  - apply (script_type_by_conditions (U:=basic_latin) (fun _ => [])
             (lit "2024-01-01T00:00:00")
             (lit "Buy when the rsi is low. Sell when the rsi is high.") ∅
             (lit "manual_captions"));
      vm_compute; discriminate.
Defined.

(** ** More on URL parsing *)

Lemma span_word_maximal {U : Unicode} (s : str) :
  exists post, s = Str.span_word s ++ post /\ ends_word post.
Proof.
  induction s as [|c s [post [Hs Hend]]]; simpl.
  - by exists [].
  - destruct (Str.is_word c) eqn:E.
    + exists post. simpl. by rewrite <- Hs.
    + by exists (c :: s).
Qed.

Lemma match_here_maximal {U : Unicode} (p s g : str) :
  Str.match_here p s = Some g ->
  exists post, s = p ++ g ++ post /\ ends_word post.
Proof.
  unfold Str.match_here.
  destruct (Str.drop_prefix p s) as [rest|] eqn:E; [|discriminate].
  apply drop_prefix_Some in E.
  destruct (span_word_maximal rest) as [post [Hrest Hend]].
  destruct (Str.span_word rest) as [|c w] eqn:Hspan; [discriminate|].
  intros [= <-]. exists post. by rewrite <- Hrest.
Qed.

Lemma re_search_maximal {U : Unicode} (p s g : str) :
  Str.re_search p s = Some g ->
  exists pre post, s = pre ++ p ++ g ++ post /\ ends_word post.
Proof.
  induction s as [|c s IH]; simpl.
  - destruct (Str.match_here p []) eqn:E; [|discriminate].
    intros [= ->]. exists []. by apply match_here_maximal.
  - destruct (Str.match_here p (c :: s)) eqn:E.
    + intros [= ->]. exists []. by apply match_here_maximal.
    + intros H. destruct (IH H) as (pre & post & -> & Hend).
      by exists (c :: pre), post.
Qed.

(** X2: The identifier returned is never cut short: in the URL it is followed
    by the end of the text or by a character outside [[\w-]], whatever
    alphanumeric characters the Unicode database knows. *)
Theorem extract_video_id_maximal {U : Unicode} (url g : str) :
  extract_video_id url = Some g ->
  exists p pre post,
    p ∈ patterns /\ url = pre ++ p ++ g ++ post /\ ends_word post.
Proof.
  intros H. apply first_match_Some in H as (p & Hp & H).
  apply re_search_maximal in H as (pre & post & H & Hend).
  by exists p, pre, post.
Qed.

Lemma extract_video_id_maximal_witness :
  exists p pre post,
    p ∈ patterns
    /\ lit "https://www.youtube.com/watch?v=dQw4w9WgXcQ&t=3"
       = pre ++ p ++ lit "dQw4w9WgXcQ" ++ post
    /\ ends_word (U:=basic_latin) post.
Proof.
  apply (extract_video_id_maximal (U:=basic_latin)
           (lit "https://www.youtube.com/watch?v=dQw4w9WgXcQ&t=3")).
  reflexivity.
Defined.

Lemma span_word_all {U : Unicode} (g : str) : word_string g -> Str.span_word g = g.
Proof.
  unfold word_string. induction g as [|c g IH]; simpl; [reflexivity|].
  intros H. inversion H as [|? ? Hc Hg]; subst. rewrite Hc. by rewrite IH.
Qed.

(** A pattern whose literal text has a character outside [[\w-]] does not
    match inside an identifier. *)
Lemma re_search_word_string {U : Unicode} (p g : str) :
  (exists c, c ∈ p /\ Str.is_word c = false) ->
  word_string g -> Str.re_search p g = None.
Proof.
  intros (c & Hc & Hnot) Hg. apply re_search_None.
  intros (pre & w & post & -> & _).
  unfold word_string in Hg. rewrite !Forall_app in Hg.
  destruct Hg as (_ & Hlit & _). rewrite Forall_forall in Hlit.
  rewrite (Hlit c Hc) in Hnot. discriminate.
Qed.

(** The slash is an ASCII character, and no word character. *)
Lemma slash_not_word {U : Unicode} : Str.is_word 47 = false.
Proof.
  unfold Str.is_word. by rewrite py_isalnum_ascii.
Qed.

Lemma patterns_not_in_word {U : Unicode} (p g : str) :
  p ∈ patterns -> word_string g -> Str.re_search p g = None.
Proof.
  intros Hp Hg. apply re_search_word_string; [|assumption].
  exists 47%N. split; [|apply slash_not_word].
  unfold patterns in Hp.
  repeat (apply elem_of_cons in Hp as [-> | Hp];
          [apply (bool_decide_unpack _); vm_compute; reflexivity|]).
  by apply elem_of_nil in Hp.
Qed.

(** Literals and tables written out as lists of code points. *)
Ltac eval_literals :=
  repeat match goal with
         | |- context [lit ?s] =>
             let v := eval vm_compute in (lit s) in change (lit s) with v
         end.

(** X1: Round trip: the identifier put behind any of the five usual URL
    prefixes is the identifier extracted. *)
Theorem extract_video_id_canonical {U : Unicode} (prefix g : str) :
  prefix ∈ canonical_prefixes -> g <> [] -> word_string g ->
  extract_video_id (prefix ++ g) = Some g.
Proof.
  intros Hp Hne Hg. unfold canonical_prefixes in Hp.
  assert (Hnone : forall p, p ∈ patterns -> Str.re_search p g = None)
    by (intros; by apply patterns_not_in_word).
  assert (Hhere : match Str.span_word g with [] => None | s => Some s end = Some g).
  { rewrite (span_word_all g Hg). by destruct g. }
  unfold extract_video_id, patterns in *. rewrite !fmap_cons, fmap_nil in *.
  repeat (apply elem_of_cons in Hp as [-> | Hp];
          [eval_literals; simpl; unfold Str.match_here; simpl;
           rewrite ?Hhere; rewrite ?Hnone by (eval_literals; repeat constructor);
           reflexivity|]).
  by apply elem_of_nil in Hp.
Qed.

Lemma extract_video_id_canonical_witness :
  extract_video_id (U:=basic_latin)
    (lit "https://www.youtube.com/shorts/" ++ lit "a1B2-c3_D4")
  = Some (lit "a1B2-c3_D4").
Proof.
  apply (extract_video_id_canonical (U:=basic_latin)).
  - unfold canonical_prefixes. rewrite !fmap_cons. repeat constructor.
  - discriminate.
  - unfold word_string. vm_compute. repeat constructor.
Defined.
(** ** More on key concepts *)

(** X7: A keyword that is part of another keyword of the same list is found
    whenever the longer one is: a text that mentions "fibonacci" also
    counts for "fib", one that mentions "bollinger bands" for
    "bollinger". *)
Theorem found_items_substring (text_lower : str) (keywords : list str)
    (short long : str) :
  short ∈ keywords -> long ∈ keywords -> occurs_in short long ->
  long ∈ term <$> found_items text_lower keywords ->
  short ∈ term <$> found_items text_lower keywords.
Proof.
  intros Hshort Hlong Hocc (x & -> & Hx)%list_elem_of_fmap.
  apply elem_of_found_items in Hx as (_ & Hc & _).
  apply list_elem_of_fmap.
  exists (Item short (Str.count short text_lower)). split; [reflexivity|].
  apply elem_of_found_items. simpl. repeat split; [assumption|].
  apply contains_occurs. apply contains_occurs in Hc.
  by eapply occurs_in_trans.
Qed.

Lemma found_items_substring_witness :
  (lit "fib") ∈ term <$> found_items (lit "the fibonacci levels") (keywords_of "indicators").
Proof.
  apply (found_items_substring _ _ (lit "fib") (lit "fibonacci")).
  - vm_compute. repeat constructor.
  - vm_compute. repeat constructor.
  - exists [], (lit "onacci"). reflexivity.
  - vm_compute. repeat constructor.
Defined.

Lemma top_terms_keywords (text_lower : str) (keywords : list str) (t : str) :
  t ∈ top_terms (found_items text_lower keywords) -> t ∈ keywords.
Proof.
  unfold top_terms. intros H.
  eapply elem_of_sublist in H; [|apply sublist_take].
  eapply elem_of_sublist in H; [|apply unique_terms_sublist].
  apply list_elem_of_fmap in H as (x & -> & Hx).
  rewrite sorted_perm in Hx. by apply elem_of_found_items in Hx as (? & _).
Qed.

Lemma top_terms_NoDup (found : list item) : NoDup (top_terms found).
Proof.
  unfold top_terms. eapply sublist_NoDup; [apply unique_terms_NoDup | apply sublist_take].
Qed.

Lemma problematic_issues_cons {U : Unicode} (t : str) (rest : list str) :
  problematic_issues (t :: rest)
  = if is_problematic t
    then ((lit "'") ++ t ++ (lit "' may require external data or complex implementation"))
           :: problematic_issues rest
    else problematic_issues rest.
Proof. reflexivity. Qed.

Lemma problematic_issues_app {U : Unicode} (l1 l2 : list str) :
  problematic_issues (l1 ++ l2) = problematic_issues l1 ++ problematic_issues l2.
Proof.
  induction l1 as [|t l1 IH]; [reflexivity|].
  rewrite <- app_comm_cons, !problematic_issues_cons.
  destruct (is_problematic t); by rewrite IH.
Qed.

Lemma problematic_issues_none {U : Unicode} (l : list str) :
  (forall t, t ∈ l -> is_problematic t = false) ->
  problematic_issues l = [].
Proof.
  induction l as [|t l IH]; intros H; [reflexivity|].
  rewrite problematic_issues_cons, (H t) by left.
  apply IH. intros u Hu. apply H. by right.
Qed.

Lemma problematic_issues_one {U : Unicode} (l : list str) :
  NoDup l ->
  (forall t, t ∈ l -> is_problematic t = bool_decide (t = (lit "fair value gap"))) ->
  problematic_issues l
  = if bool_decide ((lit "fair value gap") ∈ l) then [fair_value_gap_issue] else [].
Proof.
  induction l as [|t l IH]; intros Hnd H; [reflexivity|].
  inversion Hnd as [|? ? Hnotin Hnd']; subst.
  rewrite problematic_issues_cons, (H t) by left.
  destruct (decide (t = (lit "fair value gap"))) as [-> | Hne].
  - rewrite (bool_decide_eq_true_2 _ (eq_refl (lit "fair value gap"))).
    rewrite (bool_decide_eq_true_2 ((lit "fair value gap") ∈ (lit "fair value gap") :: l)) by left.
    rewrite problematic_issues_none; [reflexivity|].
    intros u Hu. rewrite (H u) by (by right).
    apply bool_decide_eq_false_2. intros ->. contradiction.
  - rewrite (bool_decide_eq_false_2 _ Hne).
    rewrite IH; [|assumption|intros u Hu; apply H; by right].
    destruct (decide ((lit "fair value gap") ∈ l)) as [Hin | Hout].
    + rewrite (bool_decide_eq_true_2 _ Hin).
      by rewrite (bool_decide_eq_true_2 ((lit "fair value gap") ∈ t :: l)) by (by right).
    + rewrite (bool_decide_eq_false_2 _ Hout).
      rewrite (bool_decide_eq_false_2 ((lit "fair value gap") ∈ t :: l)); [reflexivity|].
      intros [Heq | Hin]%elem_of_cons; [by apply Hne | contradiction].
Qed.

Lemma strategies_problematic {U : Unicode} (t : str) :
  t ∈ keywords_of "strategies" ->
  is_problematic t = bool_decide (t = (lit "fair value gap")).
Proof.
  intros H. vm_compute in H.
  repeat (apply elem_of_cons in H as [-> | H];
          [unfold is_problematic, Str.lower;
           rewrite py_lower_ascii by reflexivity; vm_compute; reflexivity|]).
  by apply elem_of_nil in H.
Qed.

Lemma indicators_problematic {U : Unicode} (t : str) :
  t ∈ keywords_of "indicators" -> is_problematic t = false.
Proof.
  intros H. vm_compute in H.
  repeat (apply elem_of_cons in H as [-> | H];
          [unfold is_problematic, Str.lower;
           rewrite py_lower_ascii by reflexivity; vm_compute; reflexivity|]).
  by apply elem_of_nil in H.
Qed.

(** X13: The feasibility of what [extract_key_concepts] finds in a text: the
    only keyword of the tables that a problematic term matches is
    ["fair value gap"] (it holds ["ai"]), so the issues are that one when
    the keyword is listed, and the note on many indicators when more
    than five are listed. *)
Theorem feasibility_of_extracted {U : Unicode}
    (find_specific_values : str -> list specific_value) (text : str)
    (components : gmap string (list str)) :
  let concepts := extract_key_concepts find_specific_values text in
  issues (_assess_feasibility concepts components)
  = (if bool_decide ((lit "fair value gap") ∈ get_terms concepts "strategies")
     then [fair_value_gap_issue] else [])
    ++ (if (5 <? length (get_terms concepts "indicators"))%nat
        then [(lit "Many indicators - may need to optimize for performance")] else []).
Proof.
  cbn zeta. unfold _assess_feasibility. cbn [issues].
  rewrite (extract_key_concepts_category _ text "strategies" (keywords_of "strategies"))
    by (vm_compute; repeat constructor).
  rewrite (extract_key_concepts_category _ text "indicators" (keywords_of "indicators"))
    by (vm_compute; repeat constructor).
  rewrite problematic_issues_app.
  rewrite (problematic_issues_none (top_terms (found_items _ (keywords_of "indicators")))).
  2:{ intros t Ht. eapply indicators_problematic, top_terms_keywords, Ht. }
  rewrite problematic_issues_one.
  2:{ apply top_terms_NoDup. }
  2:{ intros t Ht. eapply strategies_problematic, top_terms_keywords, Ht. }
  rewrite app_nil_r.
  destruct (5 <? _)%nat; [reflexivity | by rewrite app_nil_r].
Qed.

(** ** More on strategy components *)

(** What one turn of the sentence loop does to the bucket under a key. *)
Lemma scan_sentence_lookup {U : Unicode} (components : gmap string (list str))
    (raw : str) (key : string) :
  scan_sentence components raw !! key
  = (fun l => l ++ if long_enough (Str.strip raw) && selects key (Str.strip raw)
                   then [Str.strip raw] else [])
      <$> components !! key.
Proof.
  unfold scan_sentence, long_enough.
  destruct (length (Str.strip raw) <? 10)%nat; cbn [negb andb].
  { destruct (components !! key); simpl; by rewrite ?app_nil_r. }
  unfold selects, when_then, append_to. cbn zeta.
  set (s := Str.strip raw). set (sl := Str.lower s).
  destruct (any_in entry_keywords sl
            && (Str.contains (lit "when") sl || Str.contains (lit "if") sl || Str.contains (lit "once") sl)),
           (any_in exit_keywords sl
            && (Str.contains (lit "when") sl || Str.contains (lit "if") sl || Str.contains (lit "at") sl)),
           (any_in risk_keywords sl), (any_in rule_keywords sl);
    rewrite ?lookup_alter;
    repeat match goal with
           | |- context [decide (?a = key)] =>
               destruct (decide (a = key)) as [<- | ?]
           end;
    repeat match goal with
           | |- context [String.eqb key ?a] =>
               destruct (String.eqb_spec key a); try congruence
           end;
    try (cbn; destruct (components !! _); simpl; by rewrite ?app_nil_r).
Qed.

Lemma scan_all_lookup {U : Unicode} (sentences : list str)
    (components : gmap string (list str)) (key : string) :
  fold_left scan_sentence sentences components !! key
  = (fun l => l ++ List.filter (selects key)
                     (List.filter long_enough (map Str.strip sentences)))
      <$> components !! key.
Proof.
  revert components. induction sentences as [|raw rest IH]; intros components; simpl.
  - destruct (components !! key); simpl; by rewrite ?app_nil_r.
  - rewrite IH, scan_sentence_lookup.
    destruct (components !! key) as [l|]; simpl; [|reflexivity].
    f_equal. rewrite <- app_assoc. f_equal.
    destruct (long_enough (Str.strip raw)); simpl; [|reflexivity].
    by destruct (selects key (Str.strip raw)).
Qed.

(** X10: Each bucket is the first five, in the order of the text, of the
    stripped sentences of 10 characters or more that pass the test of its
    key; the buckets [indicators_mentioned], [timeframes] and
    [market_conditions] have no test and stay empty; the dictionary has
    the seven keys and no other. *)
Theorem identify_strategy_components_filter {U : Unicode} (text : str) (key : string) :
  identify_strategy_components text !! key
  = if bool_decide (key ∈ component_keys)
    then Some (take 5 (List.filter (selects key)
                         (List.filter long_enough
                            (map Str.strip (Str.split_sentences text)))))
    else None.
Proof.
  unfold identify_strategy_components. cbn zeta.
  rewrite lookup_fmap, scan_all_lookup.
  case_bool_decide as Hkey.
  - unfold component_keys in Hkey.
    repeat (apply elem_of_cons in Hkey as [-> | Hkey]; [reflexivity|]).
    by apply elem_of_nil in Hkey.
  - assert (Hnone : empty_components !! key = None); [|by rewrite Hnone].
    unfold empty_components. cbn [list_to_map foldr fst snd curry uncurry].
    unfold component_keys in Hkey.
    repeat (rewrite lookup_insert_ne; [|intros <-; apply Hkey; repeat constructor]).
    apply lookup_empty.
Qed.

(** ** More on specification generation *)

(** X14: There are always four or five suggestions, "Add input groups with
    tooltips" is always one of them, and "Include debug mode toggle" is
    cut off by the limit of five exactly for a strategy without risk
    rules that names more than one timeframe. *)
Theorem suggest_features_shape (concepts : Concepts)
    (components : gmap string (list str)) (script_type : str) :
  let suggestions := _suggest_features concepts components script_type in
  4 <= length suggestions <= 5
  /\ (lit "Add input groups with tooltips") ∈ suggestions
  /\ ((lit "Include debug mode toggle") ∈ suggestions <->
      ~ (script_type = (lit "strategy")
         /\ get_bucket components "risk_management" = []
         /\ 1 < length (get_terms concepts "timeframes"))).
Proof.
  cbn zeta. unfold _suggest_features.
  case_bool_decide as Hne; [subst script_type|];
    destruct (get_bucket components "risk_management") as [|r rs];
    destruct (get_terms concepts "timeframes") as [|t1 [|t2 ts]];
    eval_literals; cbn; (split; [lia|]); (split; [by repeat constructor|]);
    (split;
     [ intros H (Hs & Hr & Ht);
       first [ congruence | discriminate | lia
             | apply list_elem_of_In in H; simpl in H; intuition discriminate ]
     | intros H;
       first [ by repeat constructor | exfalso; apply H; repeat split; lia ] ]).
Qed.

(** X12: The two ends of the complexity scale: 1 is the score of an analysis
    that found nothing (at most one timeframe aside), and 10 takes three
    indicators, two patterns, entry, exit and risk sentences and two
    timeframes. *)
Theorem complexity_extremes (concepts : Concepts)
    (components : gmap string (list str)) :
  (_calculate_complexity concepts components = 1%Z <->
   get_terms concepts "indicators" = []
   /\ get_terms concepts "patterns" = []
   /\ get_bucket components "entry_conditions" = []
   /\ get_bucket components "exit_conditions" = []
   /\ get_bucket components "risk_management" = []
   /\ length (get_terms concepts "timeframes") <= 1)
  /\ (_calculate_complexity concepts components = 10%Z <->
      3 <= length (get_terms concepts "indicators")
      /\ 2 <= length (get_terms concepts "patterns")
      /\ get_bucket components "entry_conditions" <> []
      /\ get_bucket components "exit_conditions" <> []
      /\ get_bucket components "risk_management" <> []
      /\ 1 < length (get_terms concepts "timeframes")).
Proof.
  unfold _calculate_complexity. cbn zeta.
  destruct (get_terms concepts "indicators") as [|i1 is1];
    destruct (get_terms concepts "patterns") as [|p1 ps1];
    destruct (get_bucket components "entry_conditions") as [|e1 es1];
    destruct (get_bucket components "exit_conditions") as [|x1 xs1];
    destruct (get_bucket components "risk_management") as [|r1 rs1];
    destruct (Nat.ltb_spec 1 (length (get_terms concepts "timeframes")));
    cbn [nonempty length];
    (split;
     (split;
      [ intros Hs; repeat split; try congruence; try (simpl in *; lia)
      | intros (H1 & H2 & H3 & H4 & H5 & H6);
        try congruence; try (simpl in *; lia) ])).
Qed.

(** X11: The parts of a generated specification agree with each other: the
    script type is one of the two names, it is ["strategy"] exactly when
    the entry logic or the exit logic is not empty (one of the two is
    enough), the feature suggestions are those of that script type, the
    strategy style falls back on ["custom"], and the lists are cut to 5,
    5, 3 and 5 entries. *)
Theorem spec_consistent {U : Unicode} (now : str) (concepts : Concepts)
    (components : gmap string (list str)) (metadata : gmap string value)
    (source : str) :
  let spec := generate_pine_script_spec now concepts components metadata source in
  (script_type spec = (lit "strategy") \/ script_type spec = (lit "indicator"))
  /\ (script_type spec = (lit "strategy") <->
      entry_logic (implementation spec) <> [] \/ exit_logic (implementation spec) <> [])
  /\ (script_type spec = (lit "strategy") ->
      (lit "Include backtesting performance table") ∈ suggested_features spec)
  /\ (script_type spec = (lit "indicator") ->
      (lit "Add visual signal markers") ∈ suggested_features spec)
  /\ (get_terms concepts "strategies" = [] -> strategy_style spec = (lit "custom"))
  /\ length (main_indicators spec) <= 5
  /\ length (spec_patterns spec) <= 5
  /\ length (spec_timeframes spec) <= 3
  /\ length (suggested_features spec) <= 5.
Proof.
  cbn zeta. unfold generate_pine_script_spec.
  cbn [script_type implementation entry_logic exit_logic suggested_features
       strategy_style main_indicators spec_patterns spec_timeframes].
  rewrite !length_take.
  split; [|split; [|split; [|split; [|split]]]].
  - destruct (nonempty _ || nonempty _); auto.
  - destruct (get_bucket components "entry_conditions"),
             (get_bucket components "exit_conditions"); simpl;
      (split;
       [ intros H; first [ discriminate H | left; discriminate | right; discriminate ]
       | intros [H | H]; first [ reflexivity | congruence ] ]).
  - unfold _suggest_features.
    destruct (nonempty _ || nonempty _); [|discriminate]. intros _. simpl.
    destruct (nonempty (get_bucket components "risk_management"));
      destruct (nonempty (get_terms concepts "timeframes") && _);
      cbn; repeat constructor.
  - unfold _suggest_features.
    destruct (nonempty _ || nonempty _); [discriminate|]. intros _. simpl.
    destruct (nonempty (get_terms concepts "timeframes") && _);
      cbn; repeat constructor.
  - by intros ->.
  - unfold _suggest_features. rewrite length_take. lia.
Qed.

Lemma spec_consistent_witness :
  (lit "Add visual signal markers")
  ∈ suggested_features
      (generate_pine_script_spec (U:=basic_latin) (lit "2024-01-01T00:00:00")
         (extract_key_concepts (U:=basic_latin) (fun _ => []) (lit "The rsi shows momentum on the daily chart."))
         (identify_strategy_components (U:=basic_latin) (lit "The rsi shows momentum on the daily chart."))
         ∅ (lit "whisper")).
Proof.
  apply (spec_consistent (U:=basic_latin) (lit "2024-01-01T00:00:00")
           (extract_key_concepts (U:=basic_latin) (fun _ => []) (lit "The rsi shows momentum on the daily chart."))
           (identify_strategy_components (U:=basic_latin) (lit "The rsi shows momentum on the daily chart."))
           ∅ (lit "whisper")).
  vm_compute. reflexivity.
Defined.

(** ** More on transcript acquisition *)

(** X5: The cache only grows: a call never changes or removes an entry that
    is there, leaves the entries of other videos alone, and adds the
    entry of its own video exactly when it started without one and came
    back with a transcript; the entry then holds the text and the source
    tag returned.  Cached texts are never empty if they were not
    before. *)
Theorem get_transcript_cache_grows (clean_up : str -> str) (env : Env)
    (use_whisper : bool) (url video_id : str) (w : World) :
  let out := get_transcript clean_up env use_whisper url video_id w in
  (forall k e, cache w !! k = Some e -> cache (snd out) !! k = Some e)
  /\ (forall k, k <> video_id -> cache (snd out) !! k = cache w !! k)
  /\ (cache w !! video_id = None ->
      cache (snd out) !! video_id
      = if Str.truthy (fst (fst out)) then Some (entry_of (fst out)) else None)
  /\ (CacheWrite video_id ∈ added_events w (snd out) <->
      cache w !! video_id = None /\ Str.truthy (fst (fst out)) = true)
  /\ ((forall k e, cache w !! k = Some e -> text e <> []) ->
      forall k e, cache (snd out) !! k = Some e -> text e <> []).
Proof.
  cbn zeta. rewrite get_transcript_spec. unfold transcript_run, added_events.
  destruct (cache w !! video_id) as [entry|] eqn:Hw.
  { cbn [fst snd cache trace]. rewrite drop_app_length.
    split; [done|]. split; [done|]. split; [done|]. split; [|done].
    split; [|by intros [? _]].
    intros Hin. apply list_elem_of_singleton in Hin. discriminate. }
  destruct (negb use_whisper && Str.truthy (captions_answer clean_up env video_id).1)
    eqn:Hcap.
  - apply andb_true_iff in Hcap as [_ Htruthy].
    cbn [fst snd cache trace]. rewrite drop_app_length, Htruthy.
    split; [|split; [|split; [|split]]].
    + intros k e Hk. rewrite lookup_insert_ne; [assumption | congruence].
    + intros k Hk. by rewrite lookup_insert_ne.
    + intros _. apply lookup_insert_eq.
    + split; [done|]. intros _. apply elem_of_app. right. left.
    + intros Hold k e. rewrite lookup_insert. case_decide; [|by apply Hold].
      intros [= <-]. by apply truthy_entry.
  - cbn [fst snd cache trace]. rewrite drop_app_length.
    destruct (Str.truthy (whisper_answer env url).1) eqn:Htruthy.
    + split; [|split; [|split; [|split]]].
      * intros k e Hk. rewrite lookup_insert_ne; [assumption | congruence].
      * intros k Hk. by rewrite lookup_insert_ne.
      * intros _. apply lookup_insert_eq.
      * split; [done|]. intros _. rewrite !elem_of_app. right. right. left.
      * intros Hold k e. rewrite lookup_insert. case_decide; [|by apply Hold].
        intros [= <-]. by apply truthy_entry.
    + split; [done|]. split; [done|]. split; [done|]. split; [|done]. split.
      * rewrite app_nil_r, elem_of_app. intros [H | H].
        -- exfalso. destruct use_whisper; [by apply elem_of_nil in H|].
           unfold captions_events, selection_events in H.
           apply elem_of_cons in H as [H | H]; [discriminate|].
           destruct (api_list env video_id) as [tl|]; [|by apply elem_of_nil in H].
           apply elem_of_app in H as [H | H].
           ++ destruct (manual_track tl), (auto_track tl);
                apply list_elem_of_In in H; simpl in H; intuition discriminate.
           ++ destruct (chosen_track tl) as [[? ?]|];
                apply list_elem_of_In in H; simpl in H; intuition discriminate.
        -- apply list_elem_of_singleton in H. discriminate.
      * by intros [_ ?].
Qed.

Lemma get_transcript_cache_grows_witness :
  cache (snd (get_transcript id env_captions false sample_url (lit "abc123XYZ_-") fresh_world))
    !! (lit "abc123XYZ_-")
  = Some {| text := (lit "Buy when the rsi is low. Sell when the rsi is high.");
            source := (lit "manual_captions") |}.
Proof.
  destruct (get_transcript_cache_grows id env_captions false sample_url (lit "abc123XYZ_-")
              fresh_world) as (_ & _ & Hnew & _).
  rewrite Hnew; [|reflexivity]. vm_compute. reflexivity.
Defined.

(** X4: What a caller is told about the source.  From the cache, the tag is
    the stored one with ["_cached"] added.  Otherwise a transcript comes
    with one of the four source tags, ["whisper"] when the flag is set;
    and when no transcript comes, the tag is always the one of the
    speech-to-text step: the reason why the captions failed is not
    reported. *)
Theorem get_transcript_source (clean_up : str -> str) (env : Env)
    (use_whisper : bool) (url video_id : str) (w : World) :
  let r := fst (get_transcript clean_up env use_whisper url video_id w) in
  (forall e, cache w !! video_id = Some e ->
     r = (Some (text e), source e ++ (lit "_cached")))
  /\ (cache w !! video_id = None ->
      (Str.truthy (fst r) = true ->
       snd r ∈ transcript_sources /\ (use_whisper = true -> snd r = (lit "whisper")))
      /\ (Str.truthy (fst r) = false ->
          r = fst (get_transcript_from_whisper env url w))).
Proof.
  cbn zeta. rewrite get_transcript_spec, get_transcript_from_whisper_spec.
  unfold transcript_run. split.
  - by intros e ->.
  - intros ->.
    destruct (negb use_whisper && Str.truthy (captions_answer clean_up env video_id).1)
      eqn:Hcap; cbn [fst snd].
    + apply andb_true_iff in Hcap as [Hflag Htruthy]. split.
      * intros _. split; [|by destruct use_whisper].
        pose proof (captions_answer_source _ _ _ Htruthy) as Hsrc.
        unfold transcript_sources.
        repeat (apply elem_of_cons in Hsrc as [-> | Hsrc]; [repeat constructor|]).
        by apply elem_of_nil in Hsrc.
      * congruence.
    + split; [|done].
      intros Htruthy. rewrite (whisper_answer_source _ _ Htruthy).
      split; [unfold transcript_sources; repeat constructor | done].
Qed.

Lemma get_transcript_source_witness :
  fst (get_transcript id env_nothing false sample_url (lit "abc123XYZ_-") fresh_world)
  = fst (get_transcript_from_whisper env_nothing sample_url fresh_world).
Proof.
  destruct (get_transcript_source id env_nothing false sample_url (lit "abc123XYZ_-")
              fresh_world) as (_ & Hmiss).
  destruct Hmiss as (_ & Hnone); [reflexivity|].
  apply Hnone. reflexivity.
Defined.

(** X6: With the flag set the caption service is never called: the only
    network call of the transcript step is the speech-to-text one, and
    there is none on a cache hit. *)
Theorem whisper_flag_skips_captions (clean_up : str -> str) (env : Env)
    (url video_id : str) (w : World) :
  let out := get_transcript clean_up env true url video_id w in
  List.filter is_caption_call (added_events w (snd out)) = []
  /\ network_calls (added_events w (snd out))
     = match cache w !! video_id with
       | Some _ => []
       | None => [RunWhisper url]
       end.
Proof.
  cbn zeta. rewrite get_transcript_spec. unfold transcript_run, added_events.
  destruct (cache w !! video_id); cbn [negb andb fst snd trace];
    rewrite drop_app_length; [done|].
  by destruct (Str.truthy _).
Qed.

(** ** More on the pipeline *)

Lemma captions_events_transcript (env : Env) (video_id : str) :
  Forall (fun e => is_transcript_event e = true) (captions_events env video_id).
Proof.
  unfold captions_events, selection_events. constructor; [reflexivity|].
  destruct (api_list env video_id) as [tl|]; [|constructor].
  apply Forall_app. split.
  - destruct (manual_track tl), (auto_track tl); by repeat constructor.
  - destruct (chosen_track tl) as [[? ?]|]; by repeat constructor.
Qed.

(** The transcript step adds events of its own kind only, after those
    already in the trace. *)
Lemma transcript_run_trace clean_up env use_whisper url video_id (w : World) :
  let w' := snd (transcript_run clean_up env use_whisper url video_id w) in
  trace w' = trace w ++ added_events w w'
  /\ Forall (fun e => is_transcript_event e = true) (added_events w w').
Proof.
  cbn zeta. unfold transcript_run, added_events.
  destruct (cache w !! video_id).
  { cbn [snd trace]. rewrite drop_app_length. by repeat constructor. }
  destruct (negb use_whisper && _); cbn [snd trace]; rewrite drop_app_length.
  - split; [reflexivity|]. apply Forall_app. split;
      [apply captions_events_transcript | by repeat constructor].
  - split; [reflexivity|]. apply Forall_app. split.
    + destruct use_whisper; [constructor | apply captions_events_transcript].
    + destruct (Str.truthy _); by repeat constructor.
Qed.

Lemma transcript_events_not_saved (l : list event) :
  Forall (fun e => is_transcript_event e = true) l -> List.filter is_save l = [].
Proof.
  induction 1 as [|e l He _ IH]; [reflexivity|].
  simpl. rewrite IH. by destruct e.
Qed.

Section AnalyzeMore.

Context {U : Unicode}.

Variable find_specific_values : str -> list specific_value.
Variable clean_up : str -> str.
Variable create_summary : PineSpec -> str.
Variable timestamp : str.
Variable env : Env.
Variable use_whisper : bool.

(** X15: A URL without an identifier stops the analysis after its first
    step: the status file holds the line written at the start, whatever
    it held before, and nothing else has happened: no network call, no
    cache access, no file saved, the cache as it was. *)
Theorem analyze_invalid_url_silent (url : str) (w : World) :
  extract_video_id url = None ->
  let out := analyze find_specific_values clean_up create_summary timestamp env
               use_whisper url w in
  added_events w (snd out) = []
  /\ cache (snd out) = cache w
  /\ status (snd out) = Some status_starting.
Proof.
  intros Hid. cbn zeta. rewrite analyze_spec. unfold analyze_run, added_events.
  rewrite Hid. cbn [snd trace cache status]. by rewrite drop_all.
Qed.

(** X16: An analysis file is written exactly when the analysis succeeds:
    once, under the path reported in [saved_to], which carries the video
    identifier; a failed analysis writes none and reports none. *)
Theorem analyze_saves_on_success (url : str) (w : World) :
  let out := analyze find_specific_values clean_up create_summary timestamp env
               use_whisper url w in
  (success (fst out) = true ->
   exists video_id,
     extract_video_id url = Some video_id
     /\ saved_to (fst out) = Some (analysis_path timestamp video_id)
     /\ List.filter is_save (added_events w (snd out))
        = [SaveAnalysis (analysis_path timestamp video_id)])
  /\ (success (fst out) = false ->
      saved_to (fst out) = None
      /\ List.filter is_save (added_events w (snd out)) = []).
Proof.
  cbn zeta. rewrite analyze_spec. unfold analyze_run, added_events.
  destruct (extract_video_id url) as [video_id|].
  2:{ cbn [fst snd trace]. rewrite drop_all. by split. }
  destruct (extract_info env url) as [info|e].
  2:{ cbn [fst snd trace]. rewrite drop_app_length. by split. }
  cbn zeta.
  match goal with |- context [transcript_run ?c ?e ?u ?l ?v ?w0] =>
    destruct (transcript_run_trace c e u l v w0) as [Ht Hevents];
    set (out := transcript_run c e u l v w0) in *
  end.
  cbn zeta in Ht, Hevents. apply transcript_events_not_saved in Hevents.
  destruct (Str.truthy (fst (fst out))); cbn [fst snd trace success saved_to report failure].
  - split; [|discriminate]. intros _. exists video_id. repeat split.
    rewrite Ht. cbn [trace]. rewrite <- !app_assoc, drop_app_length.
    cbn [app List.filter is_save]. rewrite List.filter_app, Hevents. reflexivity.
  - split; [discriminate|]. intros _. split; [reflexivity|].
    rewrite Ht. cbn [trace]. rewrite <- !app_assoc, drop_app_length.
    cbn [app List.filter is_save]. exact Hevents.
Qed.

(** X17: What a successful analysis reports: the identifier of the URL, the
    length of the transcript in characters (code points), a preview that
    is the transcript itself up to 500 characters, and its first 500
    characters followed by three dots beyond, so never longer than 503,
    the concepts and components of that transcript, and a specification
    that carries the URL given and the source tag of the transcript. *)
Theorem analyze_success_fields (url : str) (w : World) :
  let res := fst (analyze find_specific_values clean_up create_summary timestamp env
                    use_whisper url w) in
  success res = true ->
  exists video_id t src sp preview,
    extract_video_id url = Some video_id
    /\ fst (get_transcript clean_up env use_whisper url video_id w) = (Some t, src)
    /\ t <> []
    /\ MkAnalysisResult true None None (Some video_id) (summary res) (Some sp)
         (Some (extract_key_concepts find_specific_values t))
         (Some (identify_strategy_components t))
         (Some (length t)) (Some preview)
         (Some (analysis_path timestamp video_id)) = res
    /\ length preview <= 503
    /\ (length t <= 500 -> preview = t)
    /\ (500 < length t -> preview = take 500 t ++ lit "...")
    /\ info_url (video_info sp) = Some url
    /\ info_transcript_source (video_info sp) = src
    /\ script_type sp
       = script_type (generate_pine_script_spec (now env)
                        (extract_key_concepts find_specific_values t)
                        (identify_strategy_components t) ∅ src).
Proof.
  cbn zeta. rewrite analyze_spec. unfold analyze_run.
  destruct (extract_video_id url) as [video_id|]; [|discriminate].
  destruct (extract_info env url) as [info|e]; [|discriminate].
  cbn zeta.
  match goal with |- context [transcript_run ?c ?e ?u ?l ?v ?w0] =>
    pose proof (get_transcript_result c e u l v w w0 eq_refl) as Hsame;
    rewrite (get_transcript_spec c e u l v w0) in Hsame;
    destruct (transcript_run c e u l v w0) as [[transcript src] w1]
  end.
  cbn [fst snd] in *.
  destruct transcript as [[|c t]|]; cbn [Str.truthy fst]; try discriminate.
  intros _. cbn [default from_option id].
  eexists video_id, (c :: t), src, _, _.
  split; [reflexivity|]. split; [exact Hsame|]. split; [discriminate|].
  split; [reflexivity|].
  split; [|split; [|split; [|split; [|split]]]].
  - destruct (500 <? length (c :: t))%nat eqn:Hlen.
    + rewrite length_app, length_take.
      change (length (lit "...")) with 3. lia.
    + apply Nat.ltb_ge in Hlen. lia.
  - intros Hlen. apply Nat.ltb_ge in Hlen. by rewrite Hlen.
  - intros Hlen. apply Nat.ltb_lt in Hlen. by rewrite Hlen.
  - cbn [generate_pine_script_spec video_info info_url]. unfold meta_get, fetched_metadata.
    by rewrite lookup_insert_eq.
  - reflexivity.
  - reflexivity.
Qed.

End AnalyzeMore.

Lemma transcript_run_cached clean_up env use_whisper url video_id (w : World) :
  let out := transcript_run clean_up env use_whisper url video_id w in
  Str.truthy (fst (fst out)) = true ->
  exists entry,
    cache (snd out) !! video_id = Some entry
    /\ fst (fst out) = Some (text entry)
    /\ Str.truthy (Some (text entry)) = true.
Proof.
  cbn zeta. unfold transcript_run.
  destruct (cache w !! video_id) as [entry|] eqn:Hw; cbn [fst snd cache].
  { intros Htruthy. by exists entry. }
  destruct (negb use_whisper && _) eqn:Hcap; cbn [fst snd cache].
  - intros Htruthy. eexists. rewrite lookup_insert_eq. split; [reflexivity|].
    destruct (truthy_entry _ Htruthy) as [Heq _]. split; [exact Heq|].
    by rewrite <- Heq.
  - intros Htruthy. rewrite Htruthy. eexists. rewrite lookup_insert_eq.
    split; [reflexivity|].
    destruct (truthy_entry _ Htruthy) as [Heq _]. split; [exact Heq|].
    by rewrite <- Heq.
Qed.

(** After a successful analysis the cache holds the transcript that was
    analysed. *)
Lemma analyze_run_success {U : Unicode} (find_specific_values : str -> list specific_value)
    (clean_up : str -> str) (create_summary : PineSpec -> str)
    (timestamp : str) (env : Env) (use_whisper : bool) (url : str) (w : World) :
  let out := analyze_run find_specific_values clean_up create_summary timestamp env
               use_whisper url w in
  success (fst out) = true ->
  exists video_id entry,
    extract_video_id url = Some video_id
    /\ cache (snd out) !! video_id = Some entry
    /\ Str.truthy (Some (text entry)) = true
    /\ concepts (fst out) = Some (extract_key_concepts find_specific_values (text entry))
    /\ components (fst out) = Some (identify_strategy_components (text entry))
    /\ transcript_length (fst out) = Some (length (text entry)).
Proof.
  cbn zeta. unfold analyze_run.
  destruct (extract_video_id url) as [video_id|] eqn:Hid; [|discriminate].
  destruct (extract_info env url) as [info|e]; [|discriminate].
  cbn zeta.
  match goal with |- context [transcript_run ?c ?e ?u ?l ?v ?w0] =>
    pose proof (transcript_run_cached c e u l v w0) as Hcached;
    destruct (transcript_run c e u l v w0) as [[transcript src] w1]
  end.
  cbn [fst snd] in *.
  destruct (Str.truthy transcript) eqn:Htruthy; [|discriminate].
  destruct (Hcached eq_refl) as (entry & Hentry & -> & Htext).
  intros _. exists video_id, entry. by repeat split.
Qed.

Section AnalyzeAgain.

Context {U : Unicode}.

(** The two analyses may run in two processes, and the order of the
    numeric extractions depends on the process. *)
Variables find_specific_values1 find_specific_values2 : str -> list specific_value.
Variable clean_up : str -> str.
Variable create_summary : PineSpec -> str.
Variables timestamp1 timestamp2 : str.
Variables env1 env2 : Env.
Variables use_whisper1 use_whisper2 : bool.


End AnalyzeAgain.

Section MainMore.

Context {U : Unicode}.

Variable find_specific_values : str -> list specific_value.
Variable clean_up : str -> str.
Variable create_summary : PineSpec -> str.
Variable timestamp : str.
Variable env : Env.


End MainMore.

(** *** Sample runs *)

Lemma analyze_invalid_url_silent_witness :
  let out :=
    analyze (U:=basic_latin) (fun _ => []) id (fun _ => [])
            (lit "20240101_000000") env_captions false
            (lit "https://example.com/not-a-video") cached_world in
  added_events cached_world (snd out) = []
  /\ cache (snd out) = cache cached_world
  /\ status (snd out) = Some status_starting.
Proof.
  apply (analyze_invalid_url_silent (U:=basic_latin) (fun _ => []) id
           (fun _ => []) (lit "20240101_000000") env_captions false
           (lit "https://example.com/not-a-video") cached_world).
  reflexivity.
Defined.

Lemma analyze_saves_on_success_witness :
  exists video_id,
    extract_video_id (U:=basic_latin) sample_url = Some video_id
    /\ saved_to (fst (analyze (U:=basic_latin) (fun _ => []) id (fun _ => [])
      (lit "20240101_000000")
                        env_captions false sample_url fresh_world))
       = Some (analysis_path (lit "20240101_000000") video_id)
    /\ List.filter is_save
         (added_events fresh_world
            (snd (analyze (U:=basic_latin) (fun _ => []) id (fun _ => [])
      (lit "20240101_000000")
                    env_captions false sample_url fresh_world)))
       = [SaveAnalysis (analysis_path (lit "20240101_000000") video_id)].
Proof.
  apply (analyze_saves_on_success (U:=basic_latin) (fun _ => []) id (fun _ => [])
      (lit "20240101_000000")
           env_captions false sample_url fresh_world).
  vm_compute. reflexivity.
Defined.

Lemma analyze_success_fields_witness :
  exists video_id t src sp preview,
    extract_video_id (U:=basic_latin) sample_url = Some video_id
    /\ fst (get_transcript id env_captions false sample_url video_id fresh_world)
       = (Some t, src)
    /\ t <> []
    /\ MkAnalysisResult true None None (Some video_id)
         (summary (fst (analyze (U:=basic_latin) (fun _ => []) id (fun _ => [])
      (lit "20240101_000000")
                          env_captions false sample_url fresh_world)))
         (Some sp)
         (Some (extract_key_concepts (U:=basic_latin) (fun _ => []) t))
         (Some (identify_strategy_components (U:=basic_latin) t))
         (Some (length t)) (Some preview)
         (Some (analysis_path (lit "20240101_000000") video_id))
       = fst (analyze (U:=basic_latin) (fun _ => []) id (fun _ => [])
      (lit "20240101_000000")
                env_captions false sample_url fresh_world)
    /\ length preview <= 503
    /\ (length t <= 500 -> preview = t)
    /\ (500 < length t -> preview = take 500 t ++ lit "...")
    /\ info_url (video_info sp) = Some sample_url
    /\ info_transcript_source (video_info sp) = src
    /\ script_type sp
       = script_type (generate_pine_script_spec (U:=basic_latin) (now env_captions)
                        (extract_key_concepts (U:=basic_latin) (fun _ => []) t)
                        (identify_strategy_components (U:=basic_latin) t) ∅ src).
Proof.
  apply (analyze_success_fields (U:=basic_latin) (fun _ => []) id (fun _ => [])
      (lit "20240101_000000")
           env_captions false sample_url fresh_world).
  vm_compute. reflexivity.
Defined.


(** ** Ranking of ties *)

Lemma sorted_already (l : list item) : StronglySorted by_count l -> sorted l = l.
Proof.
  induction 1 as [|x l Hl IH Hx]; [reflexivity|].
  simpl. rewrite IH. destruct l as [|y l]; [reflexivity|].
  simpl. inversion Hx as [|? ? Hxy _]; subst. unfold by_count in Hxy.
  unfold sort_key. destruct (Z.leb_spec (- Z.of_nat (count x)) (- Z.of_nat (count y)));
    [reflexivity | lia].
Qed.

Lemma found_items_terms (text_lower : str) (keywords : list str) :
  term <$> found_items text_lower keywords
  = List.filter (fun k => Str.contains k text_lower) keywords.
Proof.
  induction keywords as [|k rest IH]; [reflexivity|].
  cbn [found_items List.filter].
  destruct (Str.contains k text_lower); [|exact IH].
  rewrite fmap_cons. cbn [term]. by rewrite IH.
Qed.

Lemma unique_terms_NoDup_id (seen : gset str) (l : list item) :
  NoDup (term <$> l) -> (forall x, x ∈ l -> term x ∉ seen) ->
  unique_terms seen l = term <$> l.
Proof.
  revert seen. induction l as [|x l IH]; intros seen Hnd Hseen; [reflexivity|].
  rewrite fmap_cons in *. cbn [unique_terms].
  inversion Hnd as [|? ? Hx Hnd']; subst.
  destruct (decide (term x ∈ seen)) as [Hin|_].
  { exfalso. by apply (Hseen x); [left|]. }
  f_equal. apply IH; [assumption|].
  intros y Hy Hin. apply elem_of_union in Hin as [Hin | Hin].
  - apply elem_of_singleton in Hin. apply Hx. rewrite <- Hin.
    apply list_elem_of_fmap. by exists y.
  - apply (Hseen y); [by right | assumption].
Qed.

Lemma filter_NoDup_stdlib {A} (f : A -> bool) (l : list A) :
  NoDup l -> NoDup (List.filter f l).
Proof.
  induction 1 as [|x l Hx Hnd IH]; simpl; [constructor|].
  destruct (f x); [|assumption]. constructor; [|assumption].
  intros Hin. apply Hx. apply list_elem_of_In in Hin. apply List.filter_In in Hin as [Hin _].
  by apply list_elem_of_In.
Qed.

Lemma found_items_once_sorted (text_lower : str) (keywords : list str) :
  Forall (fun k => Str.count k text_lower <= 1) keywords ->
  StronglySorted by_count (found_items text_lower keywords).
Proof.
  intros Hone.
  assert (Hall : Forall (fun x => count x = 1) (found_items text_lower keywords)).
  { apply Forall_forall. intros x Hx.
    apply elem_of_found_items in Hx as (Hk & Hc & Hn).
    apply contains_count in Hc. rewrite Forall_forall in Hone.
    specialize (Hone _ Hk). lia. }
  induction Hall as [|x l Hx Hl IH]; constructor; [assumption|].
  eapply Forall_impl; [exact Hl|]. unfold by_count. intros y Hy. lia.
Qed.

Lemma TRADING_KEYWORDS_NoDup (category : string) (keywords : list str) :
  (category, keywords) ∈ TRADING_KEYWORDS -> NoDup keywords.
Proof.
  intros H. unfold TRADING_KEYWORDS in H.
  repeat (apply elem_of_cons in H as [[= -> ->] | H];
          [apply (bool_decide_unpack _); vm_compute; reflexivity|]).
  by apply elem_of_nil in H.
Qed.

(** X8: When no keyword of a category occurs more than once in the text,
    the list returned for the category is made of the keywords that
    occur, in the order of the keyword table, cut to ten: ties are not
    reordered. *)
Theorem extract_key_concepts_ties {U : Unicode}
    (find_specific_values : str -> list specific_value)
    (text : str) (category : string) (keywords : list str) :
  (category, keywords) ∈ TRADING_KEYWORDS ->
  Forall (fun k => Str.count k (Str.lower text) <= 1) keywords ->
  get_terms (extract_key_concepts find_specific_values text) category
  = take 10 (List.filter (fun k => Str.contains k (Str.lower text)) keywords).
Proof.
  intros Hcat Hone.
  rewrite (extract_key_concepts_category _ _ _ _ Hcat). unfold top_terms.
  rewrite (sorted_already _ (found_items_once_sorted _ _ Hone)).
  rewrite unique_terms_NoDup_id.
  - by rewrite found_items_terms.
  - rewrite found_items_terms. apply filter_NoDup_stdlib.
    by eapply TRADING_KEYWORDS_NoDup.
  - intros x _. apply not_elem_of_empty.
Qed.

Lemma extract_key_concepts_ties_witness :
  get_terms (extract_key_concepts (U:=basic_latin) (fun _ => [])
               (lit "Weekly and Daily charts, then MTF"))
            "timeframes"
  = take 10 (List.filter
               (fun k => Str.contains k
                           (Str.lower (U:=basic_latin)
                              (lit "Weekly and Daily charts, then MTF")))
               (keywords_of "timeframes")).
Proof.
  apply (extract_key_concepts_ties (U:=basic_latin)).
  - vm_compute. repeat constructor.
  - apply Forall_forall. intros k Hk. vm_compute in Hk.
    repeat (apply elem_of_cons in Hk as [-> | Hk]; [vm_compute; lia|]).
    by apply elem_of_nil in Hk.
Defined.

(** ** The metadata dictionary *)

(** X3: The metadata dictionary always has a title and an author and has
    the key ['error'] exactly when the downloader raised.  When it holds
    a description, the downloader returned, and the description is the
    first 1000 characters (code points) of the downloader's one, the
    whole of it when it is shorter, and empty when the downloader has
    none or [None].  Fetching the metadata sets the status line, is one
    network call, and leaves the cache alone. *)
Theorem get_video_metadata_shape (env : Env) (url : str) (w : World) :
  let out := get_video_metadata env url w in
  is_Some (fst out !! "title")
  /\ is_Some (fst out !! "author")
  /\ (is_Some (fst out !! "error") <-> exists e, extract_info env url = Raised e)
  /\ (forall d, fst out !! "description" = Some d ->
      exists info shown rest,
        extract_info env url = Ok info
        /\ d = Some shown
        /\ or_empty (meta_get info "description" []) = shown ++ rest
        /\ length shown
           = Nat.min 1000 (length (or_empty (meta_get info "description" []))))
  /\ (forall info, extract_info env url = Ok info ->
      is_Some (fst out !! "description"))
  /\ cache (snd out) = cache w
  /\ status (snd out) = Some status_metadata
  /\ added_events w (snd out) = [FetchMetadata url].
Proof.
  cbn zeta. unfold get_video_metadata, added_events. run_monad.
  destruct (extract_info env url) as [info|e]; cbn [fst snd cache trace status];
    rewrite drop_app_length.
  - split; [by eexists|]. split; [by eexists|].
    split; [|split; [|split; [|done]]].
    + split; [intros [x Hx]; vm_compute in Hx; discriminate
             | intros [e He]; discriminate].
    + intros d Hd.
      set (full := or_empty (meta_get info "description" [])) in *.
      assert (d = Some (take 1000 full)) as ->.
      { revert Hd. unfold metadata_of. fold full.
        generalize (take 1000 full). intros s Hs. vm_compute in Hs. congruence. }
      exists info, (take 1000 full), (drop 1000 full).
      split; [reflexivity|]. split; [reflexivity|].
      split; [by rewrite take_drop | by rewrite length_take].
    + intros _ _. by eexists.
  - split; [by eexists|]. split; [by eexists|].
    split; [|split; [|split; [|done]]].
    + split; [intros _; by exists e | intros _; by eexists].
    + intros d Hd. vm_compute in Hd. discriminate.
    + intros info [=].
Qed.

Lemma get_video_metadata_shape_witness :
  exists info shown rest,
    extract_info env_long_description sample_url = Ok info
    /\ Some (replicate 1000 97%N) = Some shown
    /\ or_empty (meta_get info "description" []) = shown ++ rest
    /\ length shown
       = Nat.min 1000 (length (or_empty (meta_get info "description" []))).
Proof.
  destruct (get_video_metadata_shape env_long_description sample_url fresh_world)
    as (_ & _ & _ & Hdescription & _).
  apply Hdescription. vm_compute. reflexivity.
Defined.

(** ** Transcripts without trading words *)

(** X20: An ASCII transcript whose lower-case form holds none of the
    entry keywords and none of the exit keywords gives a specification
    of script type ["indicator"]. *)
Theorem no_keywords_indicator {U : Unicode}
    (find_specific_values : str -> list specific_value)
    (now text : str) (metadata : gmap string value) (source : str) :
  is_ascii text = true ->
  any_in entry_keywords (Str.lower text) = false ->
  any_in exit_keywords (Str.lower text) = false ->
  script_type
    (generate_pine_script_spec now (extract_key_concepts find_specific_values text)
       (identify_strategy_components text) metadata source)
  = lit "indicator".
Proof.
  intros Hascii Hentry Hexit.
  destruct (no_keywords_no_conditions text Hascii Hentry Hexit) as [He Hx].
  unfold generate_pine_script_spec. cbn [script_type]. by rewrite He, Hx.
Qed.

Lemma no_keywords_indicator_witness :
  script_type
    (generate_pine_script_spec (U:=basic_latin) (lit "2024-01-01T00:00:00")
       (extract_key_concepts (U:=basic_latin) (fun _ => [])
          (lit "The RSI shows momentum. Watch the daily chart for divergence."))
       (identify_strategy_components (U:=basic_latin)
          (lit "The RSI shows momentum. Watch the daily chart for divergence."))
       ∅ (lit "whisper"))
  = lit "indicator".
Proof.
  apply (no_keywords_indicator (U:=basic_latin)); vm_compute; reflexivity.
Defined.

(** ** The process *)

(** The [__main__] block in terms of [analyze]. *)
Lemma run_spec {U : Unicode} (faults : Faulty.Faults)
    (find_specific_values : str -> list specific_value) (clean_up : str -> str)
    (create_summary : PineSpec -> str) (timestamp : str) (env : Env)
    (args : Args) (w : World) :
  Faulty.run faults find_specific_values clean_up create_summary timestamp env
             args w
  = match Faulty.analyze faults find_specific_values clean_up create_summary
            timestamp env (whisper args) (url args) w with
    | (Ok r, w1) =>
        ((if json args then 0 else if success r then 0 else 1)%Z,
         snd (clear_status w1))
    | (Raised e, w1) => (1%Z, snd (clear_status w1))
    end.
Proof.
  unfold Faulty.run, Faulty.main. unfold Faulty.bind at 1.
  destruct (Faulty.analyze _ _ _ _ _ _ _ _ w) as [[r|e] w1]; [|reflexivity].
  by destruct (json args), (success r).
Qed.


